(** * Nexus analytics dashboard: shallow embedding of [src/index.tsx]

  The source holds two variants of the [App] component.  The first one
  (lines 1-720) has the CSV exporter, the notification list, the data
  refresh with its interval effect and the streaming chat; the second
  one (lines 720-1390) has the data refresh with an HTTP status check
  and the sortable country table.

  React state is modelled by explicit records, one per group of
  [useState] cells; an event handler or the synchronous stretch of an
  [async] function between two [await]s is one state transformer
  (React 18 commits the setters of such a stretch together).  What the
  outside world decides (fetch results, stream chunks, [Date.now()],
  which timer fires) is an argument or an event. *)

From Stdlib Require Import List String Ascii Bool ZArith Lia.
From Stdlib Require Import Permutation Sorted DecimalString.
Import ListNotations.
Local Open Scope string_scope.
Local Open Scope Z_scope.

(** ** JavaScript string primitives used by the source

  Strings are byte strings (the UTF-8 encoding of the JavaScript
  string); case mapping and white space are the ASCII ones. *)
Module JS.

Definition LF : ascii := ascii_of_nat 10.
Definition DQUOTE : ascii := ascii_of_nat 34.
Definition newline : string := String LF EmptyString.

(** [Array.prototype.join] on an array of strings. *)
Fixpoint join (sep : string) (l : list string) : string :=
  match l with
  | [] => EmptyString
  | x :: rest =>
      match rest with
      | [] => x
      | _ :: _ => x ++ sep ++ join sep rest
      end
  end.

Definition lower_ascii (c : ascii) : ascii :=
  let n := nat_of_ascii c in
  if (Nat.leb 65 n && Nat.leb n 90)%bool then ascii_of_nat (n + 32) else c.

(** [String.prototype.toLowerCase]. *)
Fixpoint toLowerCase (s : string) : string :=
  match s with
  | EmptyString => EmptyString
  | String c s' => String (lower_ascii c) (toLowerCase s')
  end.

Fixpoint startsWith (s p : string) : bool :=
  match p, s with
  | EmptyString, _ => true
  | String a p', String b s' => (Ascii.eqb a b && startsWith s' p')%bool
  | String _ _, EmptyString => false
  end.

(** [String.prototype.includes]: [p] occurs in [s] at some offset. *)
Fixpoint includes (s p : string) : bool :=
  (startsWith s p
   || match s with
      | EmptyString => false
      | String _ s' => includes s' p
      end)%bool.

Definition is_space (c : ascii) : bool :=
  let n := nat_of_ascii c in
  (Nat.eqb n 32 || (Nat.leb 9 n && Nat.leb n 13))%bool.

Fixpoint trimStart (s : string) : string :=
  match s with
  | EmptyString => EmptyString
  | String c s' => if is_space c then trimStart s' else s
  end.

(** Drops the trailing white space: a character is kept when anything
    kept follows it or when it is not white space itself. *)
Fixpoint trimEnd (s : string) : string :=
  match s with
  | EmptyString => EmptyString
  | String c s' =>
      match trimEnd s' with
      | EmptyString => if is_space c then EmptyString else String c EmptyString
      | String _ _ as t => String c t
      end
  end.

(** [String.prototype.trim]. *)
Definition trim (s : string) : string := trimEnd (trimStart s).

(** Truthiness of a string: only the empty string is falsy. *)
Definition truthy (s : string) : bool :=
  match s with EmptyString => false | String _ _ => true end.

(** [Number.prototype.toString] on an integral number. *)
Definition string_of_Z (z : Z) : string := NilEmpty.string_of_int (Z.to_int z).

Definition hex_digit (n : nat) : ascii :=
  if Nat.ltb n 10 then ascii_of_nat (48 + n) else ascii_of_nat (55 + n).

(** Characters [encodeURI] leaves alone: letters, digits and
    [; , / ? : @ & = + $ - _ . ! ~ * ' ( ) #]. *)
Definition uri_unescaped (c : ascii) : bool :=
  let n := nat_of_ascii c in
  ((Nat.leb 65 n && Nat.leb n 90) || (Nat.leb 97 n && Nat.leb n 122)
   || (Nat.leb 48 n && Nat.leb n 57)
   || existsb (Nat.eqb n)
        [59; 44; 47; 63; 58; 64; 38; 61; 43; 36; 45; 95; 46; 33; 126; 42;
         39; 40; 41; 35]%nat)%bool.

(** [encodeURI] on the UTF-8 bytes of its argument. *)
Fixpoint encodeURI (s : string) : string :=
  match s with
  | EmptyString => EmptyString
  | String c s' =>
      if uri_unescaped c then String c (encodeURI s')
      else
        let n := nat_of_ascii c in
        String "%" (String (hex_digit (n / 16)) (String (hex_digit (n mod 16))
          (encodeURI s')))
  end.

(** [Array.prototype.sort] with a comparator.  The language fixes the
    result for a consistent comparator: the elements in comparator order,
    equal ones in their original order.  Stable insertion computes it:
    an element goes before the first one it does not compare greater
    than. *)
Fixpoint sort_insert {A} (cmp : A -> A -> Z) (x : A) (l : list A) : list A :=
  match l with
  | [] => [x]
  | y :: l' => if cmp x y <=? 0 then x :: l else y :: sort_insert cmp x l'
  end.

Definition Array_sort {A} (cmp : A -> A -> Z) (l : list A) : list A :=
  fold_right (sort_insert cmp) [] l.

(** [Array.prototype.slice(0, n)]. *)
Definition slice0 {A} (n : nat) (l : list A) : list A := firstn n l.

End JS.

(** ** Exporter: [exportToCSV] (lines 81-93) *)
Module Exporter.

(** A value as [Object.values] hands it to [join]; the numbers are the
    integers of the safe range, which print as their digits. *)
Inductive JsValue :=
| JsUndefined
| JsNull
| JsString (s : string)
| JsNumber (z : Z)
| JsPlainObject.

(** An object: its own enumerable properties in enumeration order. *)
Definition JsObj := list (string * JsValue).

Definition Object_keys (o : JsObj) : list string := map fst o.
Definition Object_values (o : JsObj) : list JsValue := map snd o.

(** The string [join] writes for an element: nothing for [null] and
    [undefined], [ToString] otherwise. *)
Definition join_item (v : JsValue) : string :=
  match v with
  | JsUndefined | JsNull => EmptyString
  | JsString s => s
  | JsNumber z => JS.string_of_Z z
  | JsPlainObject => "[object Object]"
  end.

Definition headers (data : list JsObj) : string :=
  match data with
  | [] => EmptyString
  | first :: _ => JS.join "," (Object_keys first)
  end.

Definition row (obj : JsObj) : string :=
  JS.join "," (map join_item (Object_values obj)).

Definition rows (data : list JsObj) : string :=
  JS.join JS.newline (map row data).

Definition csvPrefix : string := "data:text/csv;charset=utf-8,".

Definition csvContent (data : list JsObj) : string :=
  csvPrefix ++ headers data ++ JS.newline ++ rows data.

(** The anchor element that is clicked. *)
Record Link := { href : string; download : string }.

(** [None]: the function returns at its first line, nothing is
    downloaded. *)
Definition exportToCSV (data : list JsObj) (filename : string) : option Link :=
  match data with
  | [] => None
  | _ :: _ =>
      Some {| href := JS.encodeURI (csvContent data);
              download := filename ++ ".csv" |}
  end.

(** *** The quoted format of the specification (§4.6), for comparison *)

Fixpoint has_char (p : ascii -> bool) (s : string) : bool :=
  match s with
  | EmptyString => false
  | String c s' => (p c || has_char p s')%bool
  end.

Definition special (c : ascii) : bool :=
  (Ascii.eqb c "," || Ascii.eqb c JS.DQUOTE || Ascii.eqb c JS.LF)%bool.

Definition needs_quoting (s : string) : bool := has_char special s.

Fixpoint double_quotes (s : string) : string :=
  match s with
  | EmptyString => EmptyString
  | String c s' =>
      if Ascii.eqb c JS.DQUOTE
      then String c (String c (double_quotes s'))
      else String c (double_quotes s')
  end.

Definition spec_field (s : string) : string :=
  if needs_quoting s
  then String JS.DQUOTE (double_quotes s ++ String JS.DQUOTE EmptyString)
  else s.

Definition spec_row (obj : JsObj) : string :=
  JS.join "," (map (fun v => spec_field (join_item v)) (Object_values obj)).

End Exporter.

(** ** State and exceptions

    A synchronous stretch of code reads and writes the component state
    and may throw; [try]/[catch]/[finally] is a combinator. *)
Module Eff.

Inductive completion (A : Type) :=
| Normal (a : A)
| Throw (message : string).
Arguments Normal {A} a.
Arguments Throw {A} message.

Definition M (S A : Type) : Type := S -> completion A * S.

Definition ret {S A} (a : A) : M S A := fun s => (Normal a, s).

Definition bind {S A B} (c : M S A) (k : A -> M S B) : M S B :=
  fun s =>
    match c s with
    | (Normal a, s1) => k a s1
    | (Throw m, s1) => (Throw m, s1)
    end.

Definition throw {S A} (message : string) : M S A := fun s => (Throw message, s).

(** A state setter. *)
Definition modify {S} (f : S -> S) : M S unit := fun s => (Normal tt, f s).

(** [try { body } catch (err) { handler err } finally { fin }]. *)
Definition try_catch_finally {S A}
  (body : M S A) (handler : string -> M S A) (fin : M S unit) : M S A :=
  fun s =>
    let '(r, s1) :=
      match body s with
      | (Normal a, s1) => (Normal a, s1)
      | (Throw m, s1) => handler m s1
      end in
    match fin s1 with
    | (Normal _, s2) => (r, s2)
    | (Throw m, s2) => (Throw m, s2)
    end.

(** The state a stretch of code leaves behind. *)
Definition exec {S A} (c : M S A) (s : S) : S := snd (c s).

End Eff.

Notation "x <- c1 ;; c2" := (Eff.bind c1 (fun x => c2))
  (at level 61, c1 at next level, right associativity).
Notation "c1 ;; c2" := (Eff.bind c1 (fun _ => c2))
  (at level 61, right associativity).
Notation "' pat <- c1 ;; c2" :=
  (Eff.bind c1 (fun x => match x with pat => c2 end))
  (at level 61, pat pattern, c1 at next level, right associativity).

(** ** Data model (lines 43-71 and 750-793) *)

Module GlobalStats.
Record t := {
  cases : Z; todayCases : Z; deaths : Z; todayDeaths : Z;
  recovered : Z; todayRecovered : Z; active : Z; population : Z; updated : Z }.
End GlobalStats.

Module CountryData.
Record t := {
  country : string;
  iso2 : string; iso3 : string; flag : string;
  cases : Z; deaths : Z; recovered : Z; active : Z; population : Z;
  continent : string }.
End CountryData.

Module HistoricalData.
Record t := {
  cases : list (string * Z);
  deaths : list (string * Z);
  recovered : list (string * Z) }.
End HistoricalData.

(** ** What the network answers to one [fetchData] *)
Module Net.

(** A [Response]: its [ok] flag, and what [json()] resolves to or the
    message it rejects with. *)
Record Response (A : Type) := { ok : bool; body : A + string }.
Arguments ok {A} r.
Arguments body {A} r.

(** A [fetch()] promise. *)
Inductive Fetch (A : Type) :=
| Resolved (r : Response A)
| Rejected (message : string).
Arguments Resolved {A} r.
Arguments Rejected {A} message.

Record Responses := {
  all : Fetch GlobalStats.t;
  countries : Fetch (list CountryData.t);
  historical : Fetch HistoricalData.t }.

(** [await p]. *)
Definition await {S A} (p : Fetch A) : Eff.M S (Response A) :=
  match p with
  | Resolved r => Eff.ret r
  | Rejected m => Eff.throw m
  end.

(** [await Promise.all([g, c, h])].  When several promises reject, the
    message is that of the first one in array order; no property below
    depends on which message it is. *)
Definition Promise_all {S} (n : Responses)
  : Eff.M S (Response GlobalStats.t * Response (list CountryData.t)
             * Response HistoricalData.t) :=
  gRes <- await (all n) ;;
  cRes <- await (countries n) ;;
  hRes <- await (historical n) ;;
  Eff.ret (gRes, cRes, hRes).

(** [await res.json()]. *)
Definition json {S A} (r : Response A) : Eff.M S A :=
  match body r with
  | inl data => Eff.ret data
  | inr m => Eff.throw m
  end.

End Net.

(** The three pieces of the snapshot as the store holds them. *)
Definition Snapshot : Type :=
  option GlobalStats.t * list CountryData.t * option HistoricalData.t.

(** ** First variant: configuration, notifications and data refresh
    (lines 118-192) *)

Module Config.
Record t := {
  theme : string;
  refreshRate : Z;
  aiModel : string;
  notifications : bool }.

Definition initial : t :=
  {| theme := "Midnight Deep"; refreshRate := 30;
     aiModel := "Gemini 3 Flash"; notifications := true |}.

Definition set_notifications (b : bool) (c : t) : t :=
  {| theme := theme c; refreshRate := refreshRate c;
     aiModel := aiModel c; notifications := b |}.

Definition set_refreshRate (r : Z) (c : t) : t :=
  {| theme := theme c; refreshRate := r;
     aiModel := aiModel c; notifications := notifications c |}.
End Config.

Module App.

Record Notification := { id : Z; text : string }.

(** A pending [setTimeout]: when it is due and the [id] its callback
    closes over. *)
Record Timeout := { due : Z; target : Z }.

Record State := {
  config : Config.t;
  notifications : list Notification;
  timeouts : list Timeout;
  systemStatus : string;
  globalStats : option GlobalStats.t;
  countries : list CountryData.t;
  historical : option HistoricalData.t;
  loading : bool;
  (** Calls of [fetchData] that were started and have not settled: each
      is the configuration its [addNotification] closure was built
      with. *)
  outstanding : list Config.t }.

Definition initial : State :=
  {| config := Config.initial; notifications := []; timeouts := [];
     systemStatus := "Stable"; globalStats := None; countries := [];
     historical := None; loading := true; outstanding := [] |}.

Definition snapshot (s : State) : Snapshot :=
  (globalStats s, countries s, historical s).

Definition setConfig (c : Config.t) (s : State) : State :=
  {| config := c; notifications := notifications s; timeouts := timeouts s;
     systemStatus := systemStatus s; globalStats := globalStats s;
     countries := countries s; historical := historical s;
     loading := loading s; outstanding := outstanding s |}.

Definition setNotifications (f : list Notification -> list Notification)
  (s : State) : State :=
  {| config := config s; notifications := f (notifications s);
     timeouts := timeouts s;
     systemStatus := systemStatus s; globalStats := globalStats s;
     countries := countries s; historical := historical s;
     loading := loading s; outstanding := outstanding s |}.

Definition with_timeouts (f : list Timeout -> list Timeout) (s : State) : State :=
  {| config := config s; notifications := notifications s;
     timeouts := f (timeouts s);
     systemStatus := systemStatus s; globalStats := globalStats s;
     countries := countries s; historical := historical s;
     loading := loading s; outstanding := outstanding s |}.

Definition setSystemStatus (v : string) (s : State) : State :=
  {| config := config s; notifications := notifications s; timeouts := timeouts s;
     systemStatus := v; globalStats := globalStats s;
     countries := countries s; historical := historical s;
     loading := loading s; outstanding := outstanding s |}.

Definition setGlobalStats (v : option GlobalStats.t) (s : State) : State :=
  {| config := config s; notifications := notifications s; timeouts := timeouts s;
     systemStatus := systemStatus s; globalStats := v;
     countries := countries s; historical := historical s;
     loading := loading s; outstanding := outstanding s |}.

Definition setCountries (v : list CountryData.t) (s : State) : State :=
  {| config := config s; notifications := notifications s; timeouts := timeouts s;
     systemStatus := systemStatus s; globalStats := globalStats s;
     countries := v; historical := historical s;
     loading := loading s; outstanding := outstanding s |}.

Definition setHistorical (v : option HistoricalData.t) (s : State) : State :=
  {| config := config s; notifications := notifications s; timeouts := timeouts s;
     systemStatus := systemStatus s; globalStats := globalStats s;
     countries := countries s; historical := v;
     loading := loading s; outstanding := outstanding s |}.

Definition setLoading (v : bool) (s : State) : State :=
  {| config := config s; notifications := notifications s; timeouts := timeouts s;
     systemStatus := systemStatus s; globalStats := globalStats s;
     countries := countries s; historical := historical s;
     loading := v; outstanding := outstanding s |}.

Definition with_outstanding (f : list Config.t -> list Config.t) (s : State) : State :=
  {| config := config s; notifications := notifications s; timeouts := timeouts s;
     systemStatus := systemStatus s; globalStats := globalStats s;
     countries := countries s; historical := historical s;
     loading := loading s; outstanding := f (outstanding s) |}.

(** [addNotification] (lines 151-158).  [cfg] is the configuration of the
    render that built the callback, [now] is [Date.now()].  The result is
    the [id] that was made, if the function got that far; the source
    function itself returns nothing. *)
Definition addNotification (cfg : Config.t) (now : Z) (text : string)
  : Eff.M State (option Z) :=
  if negb (Config.notifications cfg) then Eff.ret None
  else
    let id := now in
    Eff.modify (setNotifications (fun prev => (prev ++ [{| id := id; text := text |}])%list)) ;;
    Eff.modify (with_timeouts (fun ts => (ts ++ [{| due := now + 5000; target := id |}])%list)) ;;
    Eff.ret (Some id).

(** The callback of the timeout (line 156). *)
Definition expire (id0 : Z) : State -> State :=
  setNotifications (fun prev => filter (fun n => negb (id n =? id0)) prev).

(** The [k]-th pending timeout fires: it leaves the pending ones and its
    callback runs. *)
Definition fire_timeout (k : nat) (s : State) : State :=
  match nth_error (timeouts s) k with
  | None => s
  | Some t =>
      expire (target t)
        (with_timeouts (fun ts => (firstn k ts ++ skipn (S k) ts)%list) s)
  end.

(** [fetchData] (lines 160-184), up to its first [await]. *)
Definition fetchData_begin : Eff.M State unit :=
  Eff.modify (setLoading true) ;;
  Eff.modify (setSystemStatus "Syncing").

(** [fetchData] from the first [await] on: nothing is written between the
    [await]s of the [try] block, so the rest of the call is one stretch
    that runs when the network has answered. *)
Definition fetchData_settle (cfg : Config.t) (now : Z) (net : Net.Responses)
  : Eff.M State unit :=
  Eff.try_catch_finally
    ('(gRes, cRes, hRes) <- Net.Promise_all net ;;
     gData <- Net.json gRes ;;
     cData <- Net.json cRes ;;
     hData <- Net.json hRes ;;
     Eff.modify (setGlobalStats (Some gData)) ;;
     Eff.modify (setCountries cData) ;;
     Eff.modify (setHistorical (Some hData)) ;;
     Eff.modify (setSystemStatus "Active") ;;
     addNotification cfg now "Quantum Data Link Established." ;;
     Eff.ret tt)
    (fun err =>
       Eff.modify (setSystemStatus "Error") ;;
       addNotification cfg now "Critical: API Cluster Unresponsive." ;;
       Eff.ret tt)
    (Eff.modify (setLoading false)).

(** One whole call with nothing else in between. *)
Definition fetchData (now : Z) (net : Net.Responses) (s : State) : State :=
  Eff.exec (fetchData_settle (config s) now net) (Eff.exec fetchData_begin s).

(** What a call writes into the snapshot when its [try] block gets to the
    setters. *)
Definition fetched (net : Net.Responses) : option Snapshot :=
  match Net.all net, Net.countries net, Net.historical net with
  | Net.Resolved g, Net.Resolved c, Net.Resolved h =>
      match Net.body g, Net.body c, Net.body h with
      | inl gData, inl cData, inl hData => Some (Some gData, cData, Some hData)
      | _, _, _ => None
      end
  | _, _, _ => None
  end.

(** What can happen to the component. *)
Inductive event :=
| SetConfig (c : Config.t)
| Notify (now : Z) (text : string)         (* a handler calls [addNotification] *)
| TimeoutFires (k : nat)
| RefreshStarts                             (* [fetchData()] is called *)
| RefreshSettles (k : nat) (now : Z) (net : Net.Responses).

Definition step (s : State) (e : event) : State :=
  match e with
  | SetConfig c => setConfig c s
  | Notify now text => Eff.exec (addNotification (config s) now text) s
  | TimeoutFires k => fire_timeout k s
  | RefreshStarts =>
      with_outstanding (fun l => (l ++ [config s])%list) (Eff.exec fetchData_begin s)
  | RefreshSettles k now net =>
      match nth_error (outstanding s) k with
      | None => s
      | Some cfg =>
          Eff.exec (fetchData_settle cfg now net)
            (with_outstanding (fun l => (firstn k l ++ skipn (S k) l)%list) s)
      end
  end.

Definition run (s : State) (es : list event) : State := fold_left step es s.

End App.

(** ** Second variant: data refresh and country table (lines 863-970) *)
Module Dashboard.

(** The keys [toggleSort] is called with are numeric fields; the
    comparator reads the field [as number]. *)
Inductive SortKey := Cases | Deaths | Recovered | Active | Population.

Inductive SortOrder := Asc | Desc.

Definition SortKey_eqb (a b : SortKey) : bool :=
  match a, b with
  | Cases, Cases | Deaths, Deaths | Recovered, Recovered
  | Active, Active | Population, Population => true
  | _, _ => false
  end.

Record State := {
  loading : bool;
  error : option string;
  globalStats : option GlobalStats.t;
  countries : list CountryData.t;
  historical : option HistoricalData.t;
  searchTerm : string;
  sortKey : SortKey;
  sortOrder : SortOrder;
  timeRange : string }.

Definition initial : State :=
  {| loading := true; error := None; globalStats := None; countries := [];
     historical := None; searchTerm := EmptyString; sortKey := Cases;
     sortOrder := Desc; timeRange := "30" |}.

Definition snapshot (s : State) : Snapshot :=
  (globalStats s, countries s, historical s).

Definition setLoading (v : bool) (s : State) : State :=
  {| loading := v; error := error s; globalStats := globalStats s;
     countries := countries s; historical := historical s;
     searchTerm := searchTerm s; sortKey := sortKey s;
     sortOrder := sortOrder s; timeRange := timeRange s |}.

Definition setError (v : option string) (s : State) : State :=
  {| loading := loading s; error := v; globalStats := globalStats s;
     countries := countries s; historical := historical s;
     searchTerm := searchTerm s; sortKey := sortKey s;
     sortOrder := sortOrder s; timeRange := timeRange s |}.

Definition setGlobalStats (v : option GlobalStats.t) (s : State) : State :=
  {| loading := loading s; error := error s; globalStats := v;
     countries := countries s; historical := historical s;
     searchTerm := searchTerm s; sortKey := sortKey s;
     sortOrder := sortOrder s; timeRange := timeRange s |}.

Definition setCountries (v : list CountryData.t) (s : State) : State :=
  {| loading := loading s; error := error s; globalStats := globalStats s;
     countries := v; historical := historical s;
     searchTerm := searchTerm s; sortKey := sortKey s;
     sortOrder := sortOrder s; timeRange := timeRange s |}.

Definition setHistorical (v : option HistoricalData.t) (s : State) : State :=
  {| loading := loading s; error := error s; globalStats := globalStats s;
     countries := countries s; historical := v;
     searchTerm := searchTerm s; sortKey := sortKey s;
     sortOrder := sortOrder s; timeRange := timeRange s |}.

Definition setSearchTerm (v : string) (s : State) : State :=
  {| loading := loading s; error := error s; globalStats := globalStats s;
     countries := countries s; historical := historical s;
     searchTerm := v; sortKey := sortKey s;
     sortOrder := sortOrder s; timeRange := timeRange s |}.

Definition setSortKey (v : SortKey) (s : State) : State :=
  {| loading := loading s; error := error s; globalStats := globalStats s;
     countries := countries s; historical := historical s;
     searchTerm := searchTerm s; sortKey := v;
     sortOrder := sortOrder s; timeRange := timeRange s |}.

Definition setSortOrder (v : SortOrder) (s : State) : State :=
  {| loading := loading s; error := error s; globalStats := globalStats s;
     countries := countries s; historical := historical s;
     searchTerm := searchTerm s; sortKey := sortKey s;
     sortOrder := v; timeRange := timeRange s |}.

(** [fetchData] (lines 884-908), up to its first [await]. *)
Definition fetchData_begin : Eff.M State unit :=
  Eff.modify (setLoading true) ;;
  Eff.modify (setError None).

(** [fetchData] from the first [await] on.  Everything thrown here is an
    [Error], so the handler stores its message. *)
Definition fetchData_settle (net : Net.Responses) : Eff.M State unit :=
  Eff.try_catch_finally
    ('(globalRes, countriesRes, historicalRes) <- Net.Promise_all net ;;
     (if (negb (Net.ok globalRes) || negb (Net.ok countriesRes)
          || negb (Net.ok historicalRes))%bool
      then Eff.throw "API failed to respond" else Eff.ret tt) ;;
     gData <- Net.json globalRes ;;
     cData <- Net.json countriesRes ;;
     hData <- Net.json historicalRes ;;
     Eff.modify (setGlobalStats (Some gData)) ;;
     Eff.modify (setCountries cData) ;;
     Eff.modify (setHistorical (Some hData)))
    (fun err => Eff.modify (setError (Some err)))
    (Eff.modify (setLoading false)).

Definition fetchData (net : Net.Responses) (s : State) : State :=
  Eff.exec (fetchData_settle net) (Eff.exec fetchData_begin s).

(** What a call writes into the snapshot when its [try] block gets to the
    setters. *)
Definition fetched (net : Net.Responses) : option Snapshot :=
  match Net.all net, Net.countries net, Net.historical net with
  | Net.Resolved g, Net.Resolved c, Net.Resolved h =>
      if (Net.ok g && Net.ok c && Net.ok h)%bool then
        match Net.body g, Net.body c, Net.body h with
        | inl gData, inl cData, inl hData => Some (Some gData, cData, Some hData)
        | _, _, _ => None
        end
      else None
  | _, _, _ => None
  end.

Inductive event :=
| RefreshStarts
| RefreshSettles (net : Net.Responses)
| Search (text : string)
| ToggleSort (key : SortKey).

(** The numeric field a key names. *)
Definition field (k : SortKey) (c : CountryData.t) : Z :=
  match k with
  | Cases => CountryData.cases c
  | Deaths => CountryData.deaths c
  | Recovered => CountryData.recovered c
  | Active => CountryData.active c
  | Population => CountryData.population c
  end.

(** The comparator of line 917. *)
Definition comparator (sortKey : SortKey) (sortOrder : SortOrder)
  (a b : CountryData.t) : Z :=
  let valA := field sortKey a in
  let valB := field sortKey b in
  match sortOrder with
  | Desc => valB - valA
  | Asc => valA - valB
  end.

Definition matches (searchTerm : string) (c : CountryData.t) : bool :=
  JS.includes (JS.toLowerCase (CountryData.country c)) (JS.toLowerCase searchTerm).

Definition MAX_ROWS : nat := 100.

(** The body of the [useMemo] (lines 914-923); [filter] makes a new
    array, which [sort] then reorders in place. *)
Definition filteredAndSortedCountries (countries : list CountryData.t)
  (searchTerm : string) (sortKey : SortKey) (sortOrder : SortOrder)
  : list CountryData.t :=
  JS.slice0 MAX_ROWS
    (JS.Array_sort (comparator sortKey sortOrder)
       (filter (matches searchTerm) countries)).

(** [toggleSort] (lines 963-970). *)
Definition toggleSort (key : SortKey) (s : State) : State :=
  if SortKey_eqb (sortKey s) key then
    setSortOrder (match sortOrder s with Desc => Asc | Asc => Desc end) s
  else
    setSortOrder Desc (setSortKey key s).

(** The rows the table shows in a state. *)
Definition view (s : State) : list CountryData.t :=
  filteredAndSortedCountries (countries s) (searchTerm s) (sortKey s) (sortOrder s).

Definition step (s : State) (e : event) : State :=
  match e with
  | RefreshStarts => Eff.exec fetchData_begin s
  | RefreshSettles net => Eff.exec (fetchData_settle net) s
  | Search text => setSearchTerm text s
  | ToggleSort key => toggleSort key s
  end.

Definition run (s : State) (es : list event) : State := fold_left step es s.

End Dashboard.

(** ** Streaming chat (lines 141-146 and 214-270) *)
Module Chat.

Inductive Role := user | model.

(** [isStreaming] is an optional field: [None] when the object literal
    does not have it. *)
Record ChatMessage := {
  role : Role;
  text : string;
  timestamp : Z;
  isStreaming : option bool }.

(** Where the one call of [sendMessage] that is under way stands:
    waiting for the session and the stream, or inside the [for await]
    loop with its local [fullText]. *)
Inductive Frame :=
| Idle
| Opening
| Streaming (fullText : string).

Record State := {
  chatMessages : list ChatMessage;
  chatInput : string;
  isAiTyping : bool;
  chatSessionRef : bool;        (* [chatSessionRef.current] is not null *)
  frame : Frame }.

Definition initial : State :=
  {| chatMessages := []; chatInput := EmptyString; isAiTyping := false;
     chatSessionRef := false; frame := Idle |}.

Definition setChatMessages (f : list ChatMessage -> list ChatMessage)
  (s : State) : State :=
  {| chatMessages := f (chatMessages s); chatInput := chatInput s;
     isAiTyping := isAiTyping s; chatSessionRef := chatSessionRef s;
     frame := frame s |}.

Definition setChatInput (v : string) (s : State) : State :=
  {| chatMessages := chatMessages s; chatInput := v;
     isAiTyping := isAiTyping s; chatSessionRef := chatSessionRef s;
     frame := frame s |}.

Definition setIsAiTyping (v : bool) (s : State) : State :=
  {| chatMessages := chatMessages s; chatInput := chatInput s;
     isAiTyping := v; chatSessionRef := chatSessionRef s;
     frame := frame s |}.

Definition set_chatSessionRef (v : bool) (s : State) : State :=
  {| chatMessages := chatMessages s; chatInput := chatInput s;
     isAiTyping := isAiTyping s; chatSessionRef := v;
     frame := frame s |}.

Definition set_frame (v : Frame) (s : State) : State :=
  {| chatMessages := chatMessages s; chatInput := chatInput s;
     isAiTyping := isAiTyping s; chatSessionRef := chatSessionRef s;
     frame := v |}.

(** [updated[updated.length - 1]] rewritten in a copy of the array.  On
    an empty array the source would fail; the loop only runs after the
    placeholder was appended. *)
Fixpoint update_last {A} (f : A -> A) (l : list A) : list A :=
  match l with
  | [] => []
  | x :: rest =>
      match rest with
      | [] => [f x]
      | _ :: _ => x :: update_last f rest
      end
  end.

Definition set_text (t : string) (m : ChatMessage) : ChatMessage :=
  {| role := role m; text := t; timestamp := timestamp m;
     isStreaming := isStreaming m |}.

Definition set_isStreaming (b : option bool) (m : ChatMessage) : ChatMessage :=
  {| role := role m; text := text m; timestamp := timestamp m;
     isStreaming := b |}.

Definition is_model (m : ChatMessage) : bool :=
  match role m with model => true | user => false end.

Definition fallbackText : string :=
  "Neural link failed. Attempting reconnection...".

(** Lines 231-236: the guard and the stretch up to the first [await]. *)
Definition sendMessage_begin (now : Z) (s : State) : State :=
  if (negb (JS.truthy (JS.trim (chatInput s))) || isAiTyping s)%bool then s
  else
    let userMsg :=
      {| role := user; text := chatInput s; timestamp := now;
         isStreaming := None |} in
    set_frame Opening
      (setIsAiTyping true
         (setChatInput EmptyString
            (setChatMessages (fun prev => (prev ++ [userMsg])%list) s))).

(** Lines 243-244: the stream is there. *)
Definition sendMessage_opened (now : Z) (s : State) : State :=
  set_frame (Streaming EmptyString)
    (setChatMessages
       (fun prev =>
          (prev ++ [{| role := model; text := EmptyString; timestamp := now;
                       isStreaming := Some true |}])%list)
       (set_chatSessionRef true s)).

(** [chunk.text || ''] *)
Definition chunk_text (chunk : option string) : string :=
  match chunk with
  | Some t => t
  | None => EmptyString
  end.

(** Lines 246-256: one turn of the loop. *)
Definition sendMessage_chunk (fullText : string) (chunk : option string)
  (s : State) : State :=
  let fullText' := fullText ++ chunk_text chunk in
  set_frame (Streaming fullText')
    (setChatMessages
       (update_last (fun last => if is_model last then set_text fullText' last else last))
       s).

(** Line 268. *)
Definition sendMessage_finally (s : State) : State :=
  set_frame Idle (setIsAiTyping false s).

(** Lines 258-263 and the [finally]. *)
Definition sendMessage_done (s : State) : State :=
  sendMessage_finally
    (setChatMessages
       (update_last (fun last =>
          if is_model last then set_isStreaming (Some false) last else last))
       s).

(** Lines 265-269: the [catch] and the [finally]. *)
Definition sendMessage_failed (now : Z) (s : State) : State :=
  sendMessage_finally
    (setChatMessages
       (fun prev =>
          (prev ++ [{| role := model; text := fallbackText; timestamp := now;
                       isStreaming := None |}])%list)
       s).

Inductive event :=
| Type_ (input : string)          (* the input box changes *)
| Send (now : Z)                  (* [sendMessage()] is called *)
| SessionCreated                  (* [initChat] has set the session *)
| Opened (now : Z)                (* [sendMessageStream] resolved *)
| Chunk (chunk : option string)   (* the stream yields *)
| Done                            (* the stream ends *)
| Failed (now : Z).               (* something in the [try] block threw *)

(** An event that the call under way cannot receive where it stands
    changes nothing. *)
Definition step (s : State) (e : event) : State :=
  match e, frame s with
  | Type_ input, _ => setChatInput input s
  | Send now, _ => sendMessage_begin now s
  | SessionCreated, Opening => set_chatSessionRef true s
  | Opened now, Opening => sendMessage_opened now s
  | Chunk c, Streaming fullText => sendMessage_chunk fullText c s
  | Done, Streaming _ => sendMessage_done s
  | Failed now, (Opening | Streaming _) => sendMessage_failed now s
  | _, _ => s
  end.

Definition run (s : State) (es : list event) : State := fold_left step es s.

(** The messages that are still marked as streaming, by position. *)
Definition streaming (m : ChatMessage) : bool :=
  match isStreaming m with Some true => true | _ => false end.

(** The invariant of the conversation log (§3): every message but the
    last one is not streaming. *)
Fixpoint streaming_only_last (l : list ChatMessage) : bool :=
  match l with
  | [] => true
  | m :: rest =>
      match rest with
      | [] => true
      | _ :: _ => (negb (streaming m) && streaming_only_last rest)%bool
      end
  end.

Fixpoint last_message (l : list ChatMessage) : option ChatMessage :=
  match l with
  | [] => None
  | m :: rest =>
      match rest with
      | [] => Some m
      | _ :: _ => last_message rest
      end
  end.

(** The last message of the log is marked as streaming. *)
Definition last_streaming (l : list ChatMessage) : bool :=
  match last_message l with
  | Some m => streaming m
  | None => false
  end.

(** The chunks' texts put together in arrival order. *)
Definition concat_chunks (chunks : list (option string)) : string :=
  fold_right String.append EmptyString (map chunk_text chunks).

End Chat.

(** ** Refresh interval effect (lines 186-192) *)
Module Scheduler.

(** An interval the runtime holds: its handle, the [config.refreshRate]
    its callback closes over, its delay in milliseconds and when it is
    due next. *)
Record Interval := { handle : nat; rate : Z; delay : Z; next : Z }.

(** One run of an interval callback. *)
Record Firing := { at_time : Z; by_handle : nat; period : Z; fetched : bool }.

Record State := {
  clock : Z;
  intervals : list Interval;     (* the runtime's active intervals *)
  fresh : nat;                   (* the next handle [setInterval] returns *)
  cleanup : option nat;          (* the [interval] the pending cleanup clears *)
  fetchCalls : list Z;           (* when [fetchData()] was called *)
  firings : list Firing }.

Definition initial : State :=
  {| clock := 0; intervals := []; fresh := 1%nat; cleanup := None;
     fetchCalls := []; firings := [] |}.

Definition callFetchData (s : State) : State :=
  {| clock := clock s; intervals := intervals s; fresh := fresh s;
     cleanup := cleanup s; fetchCalls := (fetchCalls s ++ [clock s])%list;
     firings := firings s |}.

Definition setInterval (rate0 : Z) (ms : Z) (s : State) : nat * State :=
  (fresh s,
   {| clock := clock s;
      intervals :=
        (intervals s ++ [{| handle := fresh s; rate := rate0; delay := ms;
                            next := clock s + ms |}])%list;
      fresh := S (fresh s); cleanup := cleanup s;
      fetchCalls := fetchCalls s; firings := firings s |}).

Definition clearInterval (h : nat) (s : State) : State :=
  {| clock := clock s;
     intervals := filter (fun i => negb (Nat.eqb (handle i) h)) (intervals s);
     fresh := fresh s; cleanup := cleanup s;
     fetchCalls := fetchCalls s; firings := firings s |}.

Definition set_cleanup (c : option nat) (s : State) : State :=
  {| clock := clock s; intervals := intervals s; fresh := fresh s;
     cleanup := c; fetchCalls := fetchCalls s; firings := firings s |}.

(** The effect body (lines 187-191) for a render whose
    [config.refreshRate] is [refreshRate]. *)
Definition effect (refreshRate : Z) (s : State) : State :=
  let s1 := callFetchData s in
  let '(interval, s2) := setInterval refreshRate (refreshRate * 1000) s1 in
  set_cleanup (Some interval) s2.

(** The function the effect returned (line 191). *)
Definition run_cleanup (s : State) : State :=
  match cleanup s with
  | Some interval => set_cleanup None (clearInterval interval s)
  | None => s
  end.

(** The period is set: React runs the pending cleanup, then the
    effect. *)
Definition start (periodSeconds : Z) (s : State) : State :=
  effect periodSeconds (run_cleanup s).

(** The component is torn down. *)
Definition stop (s : State) : State := run_cleanup s.

Definition elapse (ms : Z) (s : State) : State :=
  {| clock := clock s + Z.max 0 ms; intervals := intervals s; fresh := fresh s;
     cleanup := cleanup s; fetchCalls := fetchCalls s; firings := firings s |}.

(** The callback of line 189 runs for interval [i], which is then due
    again one delay later. *)
Definition callback (i : Interval) (s : State) : State :=
  let s1 := if rate i >? 0 then callFetchData s else s in
  {| clock := clock s1;
     intervals :=
       map (fun j =>
              if Nat.eqb (handle j) (handle i)
              then {| handle := handle j; rate := rate j; delay := delay j;
                      next := clock s1 + delay j |}
              else j)
           (intervals s1);
     fresh := fresh s1; cleanup := cleanup s1; fetchCalls := fetchCalls s1;
     firings :=
       (firings s1 ++ [{| at_time := clock s1; by_handle := handle i;
                          period := delay i; fetched := rate i >? 0 |}])%list |}.

(** The runtime runs the interval with handle [h] if it holds it and it
    is due. *)
Definition fire (h : nat) (s : State) : State :=
  match find (fun i => Nat.eqb (handle i) h) (intervals s) with
  | Some i => if next i <=? clock s then callback i s else s
  | None => s
  end.

Inductive event :=
| Start (periodSeconds : Z)
| Stop
| Elapse (ms : Z)
| Fire (h : nat).

Definition step (s : State) (e : event) : State :=
  match e with
  | Start p => start p s
  | Stop => stop s
  | Elapse ms => elapse ms s
  | Fire h => fire h s
  end.

Definition run (s : State) (es : list event) : State := fold_left step es s.

End Scheduler.

(** ** Further string primitives *)
Module Text.

Definition upper_ascii (c : ascii) : ascii :=
  let n := nat_of_ascii c in
  if (Nat.leb 97 n && Nat.leb n 122)%bool then ascii_of_nat (n - 32) else c.

(** [String.prototype.toUpperCase], on ASCII like [JS.toLowerCase]. *)
Fixpoint toUpperCase (s : string) : string :=
  match s with
  | EmptyString => EmptyString
  | String c s' => String (upper_ascii c) (toUpperCase s')
  end.

(** [s.split(sep)[0]] for a one-character separator: what stands before
    the first separator, all of [s] when there is none. *)
Fixpoint split_first (sep : ascii) (s : string) : string :=
  match s with
  | EmptyString => EmptyString
  | String c s' => if Ascii.eqb c sep then EmptyString else String c (split_first sep s')
  end.

End Text.

(** ** First variant: the registry table (line 397)

    The filter is the expression of line 916; this table is not sorted
    and shows 80 rows. *)
Module World.

Definition MAX_ROWS : nat := 80.

Definition rows (countries : list CountryData.t) (searchTerm : string)
  : list CountryData.t :=
  JS.slice0 MAX_ROWS (filter (Dashboard.matches searchTerm) countries).

End World.

(** ** Second variant: [chartData] (lines 925-933)

    A date-keyed object is the list of its entries in key order; reading
    a key that is not there gives [undefined].  [formatDate] goes through
    [Date] and the locale and is left as a parameter. *)
Module Charts.

Definition get (o : list (string * Z)) (key : string) : option Z :=
  match find (fun p => String.eqb (fst p) key) o with
  | Some p => Some (snd p)
  | None => None
  end.

Record Row := {
  date : string;
  cases : option Z;
  deaths : option Z;
  recovered : option Z }.

Definition chartData (formatDate : string -> string)
  (historical : option HistoricalData.t) : list Row :=
  match historical with
  | None => []
  | Some h =>
      map (fun d =>
             {| date := formatDate d;
                cases := get (HistoricalData.cases h) d;
                deaths := get (HistoricalData.deaths h) d;
                recovered := get (HistoricalData.recovered h) d |})
          (map fst (HistoricalData.cases h))
  end.

End Charts.

(** ** Identity (lines 148-149, 198-212 and 812-830)

    [localStorage] is the list of its entries; [JSON.stringify] and
    [JSON.parse] are parameters. *)
Module Auth.

Definition Storage := list (string * string).

Definition getItem (key : string) (st : Storage) : option string :=
  match find (fun p => String.eqb (fst p) key) st with
  | Some p => Some (snd p)
  | None => None
  end.

Definition removeItem (key : string) (st : Storage) : Storage :=
  filter (fun p => negb (String.eqb (fst p) key)) st.

Definition setItem (key value : string) (st : Storage) : Storage :=
  (removeItem key st ++ [(key, value)])%list.

(** *** First variant *)

Record UserData := { email : string; name : string; level : string }.

Record Session := {
  user : option UserData;
  localStorage : Storage;
  app : App.State }.

Definition KEY : string := "nexus_auth".

(** The initial value of the [user] cell (line 149):
    [JSON.parse(localStorage.getItem('nexus_auth') || 'null')]; an empty
    stored string is falsy too. *)
Definition initialUser (parse : string -> option UserData) (st : Storage)
  : option UserData :=
  match getItem KEY st with
  | Some saved => if JS.truthy saved then parse saved else None
  | None => None
  end.

Definition userData_of (email0 : string) : UserData :=
  {| email := email0;
     name := Text.toUpperCase (Text.split_first "@" email0);
     level := "L7 COMMANDER" |}.

(** [handleLogin] (lines 198-206); [email0] is the [email] field of the
    form, [cfg] the configuration [addNotification] was built with. *)
Definition handleLogin (stringify : UserData -> string) (cfg : Config.t)
  (now : Z) (email0 : string) (s : Session) : Session :=
  let userData := userData_of email0 in
  {| user := Some userData;
     localStorage := setItem KEY (stringify userData) (localStorage s);
     app := Eff.exec
              (App.addNotification cfg now
                 ("Authentication Successful. Welcome " ++ name userData ++ "."))
              (app s) |}.

(** [handleLogout] (lines 208-212). *)
Definition handleLogout (cfg : Config.t) (now : Z) (s : Session) : Session :=
  {| user := None;
     localStorage := removeItem KEY (localStorage s);
     app := Eff.exec (App.addNotification cfg now "Session Purged.") (app s) |}.

(** *** Second variant: [useAuth] *)

Record User := { user_name : string; user_email : string }.

Record AuthState := { current : option User; store : Storage }.

Definition USER_KEY : string := "nexus_user".

(** The initial value of the [user] cell (lines 813-816). *)
Definition savedUser (parse : string -> option User) (st : Storage) : option User :=
  match getItem USER_KEY st with
  | Some saved => if JS.truthy saved then parse saved else None
  | None => None
  end.

Definition newUser (email0 : string) : User :=
  {| user_name := Text.split_first "@" email0; user_email := email0 |}.

(** [login] (lines 818-822). *)
Definition login (stringify : User -> string) (email0 : string) (s : AuthState)
  : AuthState :=
  {| current := Some (newUser email0);
     store := setItem USER_KEY (stringify (newUser email0)) (store s) |}.

(** [logout] (lines 824-827). *)
Definition logout (s : AuthState) : AuthState :=
  {| current := None; store := removeItem USER_KEY (store s) |}.

End Auth.

(** ** Second variant: [generateAIInsights] (lines 935-961)

    What the request carries does not reach the state and is not
    modelled; [aiInsight] is [None] for [null] and for [undefined]. *)
Module Insights.

Record State := { aiInsight : option string; isAiLoading : bool }.

Definition initial : State := {| aiInsight := None; isAiLoading := false |}.

Definition setAiInsight (v : option string) (s : State) : State :=
  {| aiInsight := v; isAiLoading := isAiLoading s |}.

Definition setIsAiLoading (v : bool) (s : State) : State :=
  {| aiInsight := aiInsight s; isAiLoading := v |}.

(** What [generateContent] comes back with: a response and its [text],
    or a rejection. *)
Inductive Reply :=
| Answered (text : option string)
| Refused (message : string).

Definition fallbackText : string :=
  "Unable to generate insights at this time. Please check API configuration.".

(** The call up to its [await]; the result tells whether a request went
    out. *)
Definition generateAIInsights_begin (globalStats : option GlobalStats.t)
  (s : State) : bool * State :=
  match globalStats with
  | None => (false, s)
  | Some _ => (true, setIsAiLoading true s)
  end.

(** The call from its [await] on. *)
Definition generateAIInsights_settle (reply : Reply) : Eff.M State unit :=
  Eff.try_catch_finally
    (response <- (match reply with
                  | Answered text => Eff.ret text
                  | Refused m => Eff.throw m
                  end) ;;
     Eff.modify (setAiInsight response))
    (fun err => Eff.modify (setAiInsight (Some fallbackText)))
    (Eff.modify (setIsAiLoading false)).

Definition generateAIInsights (globalStats : option GlobalStats.t) (reply : Reply)
  (s : State) : State :=
  match generateAIInsights_begin globalStats s with
  | (true, s1) => Eff.exec (generateAIInsights_settle reply) s1
  | (false, s1) => s1
  end.

End Insights.

(** ** Vocabulary of the statements *)

Definition example_record : Exporter.JsObj :=
  [("a", Exporter.JsString "1,2"); ("b", Exporter.JsString "x")].

Definition pushes (l : list (Z * string)) : list App.event :=
  map (fun p => App.Notify (fst p) (snd p)) l.

Definition settled_ok (cfg : Config.t) (now : Z) (snap : Snapshot) (s : App.State)
  : App.State :=
  let '(g, c, h) := snap in
  App.setLoading false
    (Eff.exec (App.addNotification cfg now "Quantum Data Link Established.")
       (App.setSystemStatus "Active"
          (App.setHistorical h (App.setCountries c (App.setGlobalStats g s))))).

Definition settled_failed (cfg : Config.t) (now : Z) (s : App.State) : App.State :=
  App.setLoading false
    (Eff.exec (App.addNotification cfg now "Critical: API Cluster Unresponsive.")
       (App.setSystemStatus "Error" s)).

(** What holds of the log wherever the call under way stands. *)
Definition chat_inv (s : Chat.State) : Prop :=
  match Chat.frame s with
  | Chat.Idle =>
      Chat.isAiTyping s = false /\ Chat.last_streaming (Chat.chatMessages s) = false
  | Chat.Opening =>
      Chat.isAiTyping s = true /\ Chat.last_streaming (Chat.chatMessages s) = false
  | Chat.Streaming fullText =>
      Chat.isAiTyping s = true /\
      exists pre m,
        Chat.chatMessages s = (pre ++ [m])%list /\ Chat.role m = Chat.model /\
        Chat.text m = fullText /\ Chat.isStreaming m = Some true
  end.

Definition userMsg (s : Chat.State) (now : Z) : Chat.ChatMessage :=
  {| Chat.role := Chat.user; Chat.text := Chat.chatInput s;
     Chat.timestamp := now; Chat.isStreaming := None |}.

Definition assistantMsg (t : string) (now : Z) (flag : option bool)
  : Chat.ChatMessage :=
  {| Chat.role := Chat.model; Chat.text := t; Chat.timestamp := now;
     Chat.isStreaming := flag |}.

Definition greeting : Chat.State := Chat.setChatInput "hi" Chat.initial.

(** The exchange in which the stream breaks after the chunk [Hel]. *)
Definition broken_exchange : list Chat.event :=
  [Chat.Type_ "hi"; Chat.Send 1; Chat.Opened 2; Chat.Chunk (Some "Hel");
   Chat.Failed 3].

Definition sample_stats : GlobalStats.t :=
  {| GlobalStats.cases := 10; GlobalStats.todayCases := 1;
     GlobalStats.deaths := 2; GlobalStats.todayDeaths := 0;
     GlobalStats.recovered := 5; GlobalStats.todayRecovered := 1;
     GlobalStats.active := 3; GlobalStats.population := 100;
     GlobalStats.updated := 1700000000000 |}.

Definition sample_history : HistoricalData.t :=
  {| HistoricalData.cases := [("1/1/24", 10)];
     HistoricalData.deaths := [("1/1/24", 2)];
     HistoricalData.recovered := [("1/1/24", 5)] |}.

Definition sample_net : Net.Responses :=
  {| Net.all := Net.Resolved {| Net.ok := true; Net.body := inl sample_stats |};
     Net.countries := Net.Resolved {| Net.ok := true; Net.body := inl [] |};
     Net.historical :=
       Net.Resolved {| Net.ok := true; Net.body := inl sample_history |} |}.





Definition country_named (name : string) (cases : Z) : CountryData.t :=
  {| CountryData.country := name; CountryData.iso2 := EmptyString;
     CountryData.iso3 := EmptyString; CountryData.flag := EmptyString;
     CountryData.cases := cases; CountryData.deaths := 0;
     CountryData.recovered := 0; CountryData.active := 0;
     CountryData.population := 0; CountryData.continent := "Europe" |}.

Definition three_countries : list CountryData.t :=
  [country_named "France" 3; country_named "Germany" 9; country_named "Francistan" 5].

(** The runtime holds exactly the interval the pending cleanup will
    clear, and nothing when no cleanup is pending. *)
Definition sched_inv (s : Scheduler.State) : Prop :=
  match Scheduler.cleanup s with
  | Some h =>
      exists i, Scheduler.intervals s = [i] /\ Scheduler.handle i = h /\
                Scheduler.delay i = Scheduler.rate i * 1000
  | None => Scheduler.intervals s = []
  end.

Definition passive (e : Scheduler.event) : bool :=
  match e with
  | Scheduler.Elapse _ | Scheduler.Fire _ => true
  | Scheduler.Start _ | Scheduler.Stop => false
  end.

(** Every notification on the list has its removal timer pending, due
    5000 ms after the moment its id was taken. *)
Definition timers_pending (s : App.State) : Prop :=
  forall n, In n (App.notifications s) ->
            In {| App.due := App.id n + 5000; App.target := App.id n |} (App.timeouts s).

(** The firings of [l] are at least [d] apart, the first one at least [d]
    after [t0]. *)
Fixpoint spaced (t0 d : Z) (l : list Scheduler.Firing) : Prop :=
  match l with
  | [] => True
  | f :: rest => t0 + d <= Scheduler.at_time f /\ spaced (Scheduler.at_time f) d rest
  end.

(** The string has nothing but white space in it. *)
Fixpoint all_space (s : string) : bool :=
  match s with
  | EmptyString => true
  | String c s' => (JS.is_space c && all_space s')%bool
  end.

(** The only [Failed] events of a trace. *)
Definition is_failure (e : Chat.event) : bool :=
  match e with Chat.Failed _ => true | _ => false end.

(** How often the character occurs in the text. *)
Fixpoint count_char (c : ascii) (s : string) : nat :=
  match s with
  | EmptyString => 0%nat
  | String x s' => ((if Ascii.eqb x c then 1 else 0) + count_char c s')%nat
  end.

(** The number a hexadecimal digit stands for. *)
Definition hex_value (h : ascii) : nat :=
  let n := nat_of_ascii h in
  if Nat.leb 65 n then (n - 55)%nat else (n - 48)%nat.

(** The character two hexadecimal digits stand for. *)
Definition unescape (h1 h2 : ascii) : ascii :=
  ascii_of_nat (16 * hex_value h1 + hex_value h2).

(** The three promises resolved and the three bodies parsed to [g], [c]
    and [h]; nothing is said about the HTTP status. *)
Definition delivers (net : Net.Responses) (g : GlobalStats.t)
  (c : list CountryData.t) (h : HistoricalData.t) : Prop :=
  exists rg rc rh,
    Net.all net = Net.Resolved rg /\ Net.countries net = Net.Resolved rc /\
    Net.historical net = Net.Resolved rh /\
    Net.body rg = inl g /\ Net.body rc = inl c /\ Net.body rh = inl h.


(** A fetch promise rejects or a body does not parse. *)
Definition breaks (net : Net.Responses) : Prop :=
  (exists m, Net.all net = Net.Rejected m) \/
  (exists m, Net.countries net = Net.Rejected m) \/
  (exists m, Net.historical net = Net.Rejected m) \/
  (exists r m, Net.all net = Net.Resolved r /\ Net.body r = inr m) \/
  (exists r m, Net.countries net = Net.Resolved r /\ Net.body r = inr m) \/
  (exists r m, Net.historical net = Net.Resolved r /\ Net.body r = inr m).


(** The three requests are answered with parsable bodies, the first one
    with an HTTP error. *)
Definition http_error_net : Net.Responses :=
  {| Net.all := Net.Resolved {| Net.ok := false; Net.body := inl sample_stats |};
     Net.countries := Net.Resolved {| Net.ok := true; Net.body := inl [] |};
     Net.historical :=
       Net.Resolved {| Net.ok := true; Net.body := inl sample_history |} |}.

(** The texts of the chunks one after the other, a chunk without text
    adding nothing. *)
Definition joined (chunks : list (option string)) : string :=
  fold_right (fun chunk rest =>
                match chunk with
                | Some t => t ++ rest
                | None => rest
                end) EmptyString chunks.

(** Every character of the text is an ASCII character. *)
Fixpoint ascii_only (s : string) : bool :=
  match s with
  | EmptyString => true
  | String c s' => (Nat.ltb (nat_of_ascii c) 128 && ascii_only s')%bool
  end.

(** * Properties *)

(** ** Strings and lists *)

Lemma append_nil_r (s : string) : s ++ EmptyString = s.
Proof. induction s as [|c s IH]; simpl; [reflexivity | now rewrite IH]. Qed.

Lemma append_assoc (a b c : string) : (a ++ b) ++ c = a ++ (b ++ c).
Proof. induction a as [|x a IH]; simpl; [reflexivity | now rewrite IH]. Qed.

Lemma has_char_app (p : ascii -> bool) (a b : string) :
  Exporter.has_char p (a ++ b) = (Exporter.has_char p a || Exporter.has_char p b)%bool.
Proof.
  induction a as [|c a IH]; simpl; [reflexivity|].
  now rewrite IH, orb_assoc.
Qed.

Lemma has_char_join (p : ascii -> bool) (sep : string) (l : list string) :
  Exporter.has_char p sep = false ->
  Exporter.has_char p (JS.join sep l) = existsb (Exporter.has_char p) l.
Proof.
  intros Hsep. induction l as [|x rest IH]; [reflexivity|].
  destruct rest as [|y rest].
  - simpl. now rewrite orb_false_r.
  - change (JS.join sep (x :: y :: rest)) with (x ++ sep ++ JS.join sep (y :: rest)).
    rewrite !has_char_app, Hsep, IH. reflexivity.
Qed.

Lemma spec_field_plain (s : string) :
  Exporter.needs_quoting s = false -> Exporter.spec_field s = s.
Proof. unfold Exporter.spec_field. now intros ->. Qed.

Lemma row_agrees_when_plain (obj : Exporter.JsObj) :
  (forall v, In v (Exporter.Object_values obj) ->
             Exporter.needs_quoting (Exporter.join_item v) = false) ->
  Exporter.row obj = Exporter.spec_row obj.
Proof.
  unfold Exporter.row, Exporter.spec_row. intros H. f_equal.
  apply map_ext_in. intros v Hv. symmetry. apply spec_field_plain, H, Hv.
Qed.

(** ** Exporter *)

Lemma length_append (a b : string) :
  String.length (a ++ b) = (String.length a + String.length b)%nat.
Proof. induction a as [|c a IH]; simpl; [reflexivity | now rewrite IH]. Qed.

Lemma double_quotes_length (s : string) :
  (String.length s <= String.length (Exporter.double_quotes s))%nat.
Proof.
  induction s as [|c s IH]; simpl; [lia|].
  destruct (Ascii.eqb c JS.DQUOTE); simpl; lia.
Qed.

Lemma spec_field_length (s : string) :
  (String.length s <= String.length (Exporter.spec_field s))%nat /\
  (Exporter.needs_quoting s = true ->
   (String.length s < String.length (Exporter.spec_field s))%nat).
Proof.
  unfold Exporter.spec_field. destruct (Exporter.needs_quoting s).
  - pose proof (double_quotes_length s) as H.
    simpl. rewrite length_append. simpl. split; [lia | intros _; lia].
  - split; [lia | discriminate].
Qed.

Lemma join_map_length {A} (f g : A -> string) (sep : string) (l : list A) :
  (forall x, (String.length (f x) <= String.length (g x))%nat) ->
  (String.length (JS.join sep (map f l)) <= String.length (JS.join sep (map g l)))%nat /\
  ((exists x, In x l /\ (String.length (f x) < String.length (g x))%nat) ->
   (String.length (JS.join sep (map f l)) < String.length (JS.join sep (map g l)))%nat).
Proof.
  intros Hle. induction l as [|x rest [IH1 IH2]].
  - split; [simpl; lia | intros (x & [] & _)].
  - destruct rest as [|y rest].
    + simpl. split; [apply Hle|]. intros (z & [<- | []] & Hz). exact Hz.
    + change (JS.join sep (map f (x :: y :: rest)))
        with (f x ++ sep ++ JS.join sep (map f (y :: rest))).
      change (JS.join sep (map g (x :: y :: rest)))
        with (g x ++ sep ++ JS.join sep (map g (y :: rest))).
      rewrite !length_append. pose proof (Hle x) as Hx.
      split; [lia|]. intros (z & [<- | Hz] & Hlt); [lia|].
      assert ((String.length (JS.join sep (map f (y :: rest)))
               < String.length (JS.join sep (map g (y :: rest))))%nat)
        by (apply IH2; now exists z).
      lia.
Qed.

Lemma row_agrees_only_when_plain (obj : Exporter.JsObj) :
  Exporter.row obj = Exporter.spec_row obj ->
  forall v, In v (Exporter.Object_values obj) ->
            Exporter.needs_quoting (Exporter.join_item v) = false.
Proof.
  intros Heq v Hv.
  destruct (Exporter.needs_quoting (Exporter.join_item v)) eqn:E; [|reflexivity].
  exfalso.
  destruct (join_map_length Exporter.join_item
              (fun v => Exporter.spec_field (Exporter.join_item v)) ","
              (Exporter.Object_values obj)
              (fun x => proj1 (spec_field_length (Exporter.join_item x))))
    as [_ Hlt].
  assert (Hstrict : (String.length (Exporter.row obj)
                     < String.length (Exporter.spec_row obj))%nat).
  { apply Hlt. exists v. split; [exact Hv|].
    now apply (proj2 (spec_field_length (Exporter.join_item v))). }
  rewrite Heq in Hstrict. lia.
Qed.

(** C5, as stated, fails: for [[{a:"1,2", b:"x"}]] the exporter writes the
    row [1,2,x], which is not the quoted row the claim asks for. *)
Lemma C5_row_is_not_quoted :
  Exporter.needs_quoting "1,2" = true /\
  Exporter.csvContent [example_record]
    = Exporter.csvPrefix ++ "a,b" ++ JS.newline ++ "1,2,x" /\
  Exporter.spec_row example_record
    = String JS.DQUOTE ("1,2" ++ String JS.DQUOTE ",x") /\
  Exporter.row example_record <> Exporter.spec_row example_record.
Proof.
  repeat split; try reflexivity.
  vm_compute. discriminate.
Qed.

(** C5 (amended): for a non-empty sequence of records the exporter hands
    out the header row made of the first record's field names and then
    one row per record, the rows being the values joined by commas as
    they are.  No quote character is ever added, so a row is the row of
    the quoted format exactly when none of its values holds a comma, a
    quote or a newline; [[{a:"1,2", b:"x"}]] gives [a,b] and [1,2,x]. *)
Theorem C5_export_joins_values_verbatim :
  forall (first : Exporter.JsObj) (rest : list Exporter.JsObj) (filename : string),
    Exporter.exportToCSV (first :: rest) filename
      = Some {| Exporter.href := JS.encodeURI (Exporter.csvContent (first :: rest));
                Exporter.download := filename ++ ".csv" |} /\
    Exporter.csvContent (first :: rest)
      = Exporter.csvPrefix ++ JS.join "," (map fst first) ++ JS.newline
        ++ JS.join JS.newline (map Exporter.row (first :: rest)) /\
    (forall obj,
        Exporter.has_char (Ascii.eqb JS.DQUOTE) (Exporter.row obj)
        = existsb (fun v => Exporter.has_char (Ascii.eqb JS.DQUOTE) (Exporter.join_item v))
            (map snd obj)) /\
    (forall obj,
        Exporter.row obj = Exporter.spec_row obj <->
        (forall v, In v (map snd obj) ->
                   Exporter.needs_quoting (Exporter.join_item v) = false)) /\
    Exporter.csvContent [example_record]
      = Exporter.csvPrefix ++ "a,b" ++ JS.newline ++ "1,2,x" /\
    (forall obj,
        Exporter.row obj = JS.join "," (map Exporter.join_item (map snd obj))).
Proof.
  intros first rest filename.
  split; [reflexivity | split; [reflexivity | split; [|split; [|split]]]].
  - intros obj. unfold Exporter.row, Exporter.Object_values.
    rewrite has_char_join by reflexivity.
    induction (map snd obj) as [|v l IH]; simpl; [reflexivity | now rewrite IH].
  - intros obj. split.
    + apply row_agrees_only_when_plain.
    + apply row_agrees_when_plain.
  - reflexivity.
  - reflexivity.
Qed.

(** ** Notifications *)

Lemma addNotification_enabled (cfg : Config.t) (now : Z) (text : string) (s : App.State) :
  Config.notifications cfg = true ->
  App.addNotification cfg now text s
  = (Eff.Normal (Some now),
     App.with_timeouts
       (fun ts => (ts ++ [{| App.due := now + 5000; App.target := now |}])%list)
       (App.setNotifications
          (fun prev => (prev ++ [{| App.id := now; App.text := text |}])%list) s)).
Proof. intros H. unfold App.addNotification. rewrite H. reflexivity. Qed.

Lemma addNotification_disabled (cfg : Config.t) (now : Z) (text : string) (s : App.State) :
  Config.notifications cfg = false ->
  App.addNotification cfg now text s = (Eff.Normal None, s).
Proof. intros H. unfold App.addNotification. rewrite H. reflexivity. Qed.

Lemma pushes_grow (l : list (Z * string)) :
  forall s, Config.notifications (App.config s) = true ->
    App.notifications (App.run s (pushes l))
    = (App.notifications s
       ++ map (fun p => {| App.id := fst p; App.text := snd p |}) l)%list
    /\ App.config (App.run s (pushes l)) = App.config s.
Proof.
  induction l as [|[now text] l IH]; intros s Hs.
  - simpl. now rewrite app_nil_r.
  - simpl. unfold Eff.exec. rewrite addNotification_enabled by assumption.
    simpl snd.
    match goal with |- context [App.run ?s1 _] => destruct (IH s1) as [IHn IHc] end;
      [exact Hs|].
    unfold App.run in *. rewrite IHn, IHc. simpl.
    rewrite <- app_assoc. now split.
Qed.

(** C6, as stated, fails: there is no bound that the length of the
    notification list respects in every reachable state. *)
Lemma C6_no_cap_exists :
  ~ (exists cap : nat,
        forall es : list App.event,
          (List.length (App.notifications (App.run App.initial es)) <= cap)%nat).
Proof.
  intros [cap H].
  specialize (H (pushes (repeat (0, "x") (S cap)))).
  destruct (pushes_grow (repeat (0, "x") (S cap)) App.initial eq_refl) as [Hn _].
  rewrite Hn in H. simpl in H.
  rewrite length_map, repeat_length in H. lia.
Qed.

(** ** Data refresh, first variant *)

Ltac destruct_net net :=
  let g := fresh "g" in
  let c := fresh "c" in
  let h := fresh "h" in
  destruct net as [g c h];
  destruct g as [[? [?|?]]|?];
  destruct c as [[? [?|?]]|?];
  destruct h as [[? [?|?]]|?].

Lemma app_settle_cases (cfg : Config.t) (now : Z) (net : Net.Responses) (s : App.State) :
  Eff.exec (App.fetchData_settle cfg now net) s
  = match App.fetched net with
    | Some snap => settled_ok cfg now snap s
    | None => settled_failed cfg now s
    end.
Proof.
  destruct_net net;
    unfold Eff.exec, App.fetchData_settle, App.fetched, settled_ok, settled_failed,
      Eff.try_catch_finally, Eff.bind, Eff.modify, Eff.ret, Eff.throw,
      Net.Promise_all, Net.await, Net.json, App.addNotification;
    simpl; destruct (Config.notifications cfg); reflexivity.
Qed.

Lemma app_snapshot_addNotification cfg now text s :
  App.snapshot (Eff.exec (App.addNotification cfg now text) s) = App.snapshot s.
Proof.
  unfold Eff.exec, App.addNotification.
  destruct (Config.notifications cfg); reflexivity.
Qed.

Lemma app_settle_snapshot (cfg : Config.t) (now : Z) (net : Net.Responses) (s : App.State) :
  App.snapshot (Eff.exec (App.fetchData_settle cfg now net) s)
  = match App.fetched net with
    | Some snap => snap
    | None => App.snapshot s
    end.
Proof.
  rewrite app_settle_cases. destruct (App.fetched net) as [[[g c] h]|].
  - unfold settled_ok.
    change (App.snapshot (App.setLoading false ?x)) with (App.snapshot x).
    now rewrite app_snapshot_addNotification.
  - unfold settled_failed.
    change (App.snapshot (App.setLoading false ?x)) with (App.snapshot x).
    now rewrite app_snapshot_addNotification.
Qed.



(** ** The notification list only grows between timers *)

Lemma addNotification_grows cfg now text s :
  exists extra,
    App.notifications (Eff.exec (App.addNotification cfg now text) s)
    = (App.notifications s ++ extra)%list.
Proof.
  unfold Eff.exec, App.addNotification. destruct (Config.notifications cfg); simpl.
  - eexists. reflexivity.
  - exists []. now rewrite app_nil_r.
Qed.

Lemma step_grows_unless_timer (s : App.State) (e : App.event) :
  (forall k, e <> App.TimeoutFires k) ->
  exists extra, App.notifications (App.step s e) = (App.notifications s ++ extra)%list.
Proof.
  intros Hne. destruct e as [c|now text|k| |k now net]; simpl.
  - exists []. now rewrite app_nil_r.
  - apply addNotification_grows.
  - exfalso. now apply (Hne k).
  - exists []. now rewrite app_nil_r.
  - destruct (nth_error (App.outstanding s) k) as [cfg|];
      [|exists []; now rewrite app_nil_r].
    rewrite app_settle_cases.
    destruct (App.fetched net) as [[[g c] h]|]; unfold settled_ok, settled_failed;
      change (App.notifications (App.setLoading false ?x)) with (App.notifications x);
      match goal with
      | |- exists extra,
            App.notifications (Eff.exec (App.addNotification ?c0 ?n0 ?t0) ?s0) = _ =>
          destruct (addNotification_grows c0 n0 t0 s0) as [extra Hx];
          exists extra; exact Hx
      end.
Qed.

(** C6 (amended): the notification list has no maximum.  A push through
    an [addNotification] that was built while notifications were enabled
    appends one entry and removes none, so [n] pushes by handlers in a
    row, made while notifications are enabled, make the list [n] longer.
    Nothing but the firing of a removal timer ever takes an entry off
    the list, and a firing timer drops exactly the entries carrying the
    id it was set for. *)
Theorem C6_queue_grows_without_cap :
  (forall (cfg : Config.t) now text (s : App.State),
      Config.notifications cfg = true ->
      App.notifications (Eff.exec (App.addNotification cfg now text) s)
      = (App.notifications s ++ [{| App.id := now; App.text := text |}])%list) /\
  (forall (s : App.State) (l : list (Z * string)),
      Config.notifications (App.config s) = true ->
      List.length (App.notifications (App.run s (pushes l)))
      = (List.length (App.notifications s) + List.length l)%nat) /\
  (forall (s : App.State) (e : App.event),
      (forall k, e <> App.TimeoutFires k) ->
      exists extra,
        App.notifications (App.step s e) = (App.notifications s ++ extra)%list) /\
  (forall (s : App.State) k,
      App.notifications (App.step s (App.TimeoutFires k))
      = match nth_error (App.timeouts s) k with
        | None => App.notifications s
        | Some t =>
            filter (fun n => negb (App.id n =? App.target t)) (App.notifications s)
        end).
Proof.
  split; [|split; [|split]].
  - intros cfg now text s Hs. unfold Eff.exec.
    now rewrite addNotification_enabled.
  - intros s l Hs. destruct (pushes_grow l s Hs) as [Hn _].
    rewrite Hn, length_app, length_map. reflexivity.
  - apply step_grows_unless_timer.
  - intros s k. simpl. unfold App.fire_timeout.
    destruct (nth_error (App.timeouts s) k); reflexivity.
Qed.

Lemma C6_queue_grows_without_cap_witness :
  Config.notifications (App.config App.initial) = true /\
  List.length (App.notifications
            (App.run App.initial (pushes [(1, "a"); (1, "b"); (2, "c")]))) = 3%nat.
Proof.
  split; [reflexivity|].
  exact (proj1 (proj2 C6_queue_grows_without_cap) App.initial
           [(1, "a"); (1, "b"); (2, "c")] eq_refl).
Defined.

(** ** Data refresh, second variant *)


Lemma dash_toggleSort_snapshot key s :
  Dashboard.snapshot (Dashboard.toggleSort key s) = Dashboard.snapshot s.
Proof.
  unfold Dashboard.toggleSort.
  destruct (Dashboard.SortKey_eqb (Dashboard.sortKey s) key); reflexivity.
Qed.



(** When the [try] block reaches the setters: all three promises
    resolved and all three bodies parsed (and, in the second variant,
    all three responses were [ok]). *)
Lemma app_fetched_iff (net : Net.Responses) (g : GlobalStats.t)
  (c : list CountryData.t) (h : HistoricalData.t) :
  App.fetched net = Some (Some g, c, Some h) <->
  exists rg rc rh,
    Net.all net = Net.Resolved rg /\ Net.countries net = Net.Resolved rc /\
    Net.historical net = Net.Resolved rh /\
    Net.body rg = inl g /\ Net.body rc = inl c /\ Net.body rh = inl h.
Proof.
  split.
  - destruct_net net; unfold App.fetched; simpl; intros H; try discriminate.
    injection H as -> -> ->. eexists _, _, _. repeat split.
  - intros (rg & rc & rh & Hg & Hc & Hh & Bg & Bc & Bh).
    unfold App.fetched. now rewrite Hg, Hc, Hh, Bg, Bc, Bh.
Qed.

Lemma dash_fetched_iff (net : Net.Responses) (g : GlobalStats.t)
  (c : list CountryData.t) (h : HistoricalData.t) :
  Dashboard.fetched net = Some (Some g, c, Some h) <->
  exists rg rc rh,
    Net.all net = Net.Resolved rg /\ Net.countries net = Net.Resolved rc /\
    Net.historical net = Net.Resolved rh /\
    Net.ok rg = true /\ Net.ok rc = true /\ Net.ok rh = true /\
    Net.body rg = inl g /\ Net.body rc = inl c /\ Net.body rh = inl h.
Proof.
  split.
  - destruct_net net; unfold Dashboard.fetched; simpl; intros H; try discriminate;
      repeat match goal with b : bool |- _ => destruct b end;
      simpl in H; try discriminate.
    injection H as -> -> ->. eexists _, _, _. repeat split.
  - intros (rg & rc & rh & Hg & Hc & Hh & Og & Oc & Oh & Bg & Bc & Bh).
    unfold Dashboard.fetched. now rewrite Hg, Hc, Hh, Og, Oc, Oh, Bg, Bc, Bh.
Qed.

Ltac show_case :=
  solve [ eexists; reflexivity
        | eexists; split; reflexivity
        | do 2 eexists; split; reflexivity ].

Ltac pick_disjunct :=
  repeat match goal with
         | |- _ \/ _ => (left; show_case) || right
         end;
  show_case.

Lemma app_fetched_delivers (net : Net.Responses) (snap : Snapshot) :
  App.fetched net = Some snap <->
  exists g c h, delivers net g c h /\ snap = (Some g, c, Some h).
Proof.
  split.
  - destruct_net net; unfold App.fetched; simpl; intros H; try discriminate.
    injection H as <-. eexists _, _, _. split; [|reflexivity].
    eexists _, _, _. repeat split.
  - intros (g & c & h & (rg & rc & rh & Hg & Hc & Hh & Bg & Bc & Bh) & ->).
    unfold App.fetched. now rewrite Hg, Hc, Hh, Bg, Bc, Bh.
Qed.


Lemma breaks_iff (net : Net.Responses) : breaks net <-> App.fetched net = None.
Proof.
  split.
  - unfold breaks.
    intros [[m H] | [[m H] | [[m H] | [(r & m & H & B) | [(r & m & H & B) | (r & m & H & B)]]]]];
      destruct_net net; simpl in *; try discriminate; try reflexivity;
      injection H as <-; simpl in B; discriminate.
  - destruct_net net; unfold App.fetched, breaks; simpl; intros H;
      try discriminate; pick_disjunct.
Qed.






(** C10, as stated, fails in one case: a refresh that was started while
    notifications were enabled calls the [addNotification] of that
    render, so when it settles after the setting was turned off it still
    puts its message on the list and sets the removal timer. *)
Lemma C10_refresh_started_earlier_still_notifies :
  let off := Config.set_notifications false Config.initial in
  let s := App.run App.initial [App.RefreshStarts; App.SetConfig off] in
  let s' := App.step s (App.RefreshSettles 0 5 sample_net) in
  Config.notifications (App.config s) = false /\
  App.notifications s = [] /\
  App.notifications s'
  = [{| App.id := 5; App.text := "Quantum Data Link Established." |}] /\
  App.timeouts s' = [{| App.due := 5005; App.target := 5 |}].
Proof. cbv zeta. repeat split. Qed.

(** C10 (amended): an [addNotification] that was built while the
    notifications setting was off does nothing: the state (and so the
    list and the pending timeouts) is what it was and no id is made.
    That is the case of every call a handler makes while the setting is
    off and of every refresh started while it is off: such a refresh,
    whether it succeeds or fails, leaves the list and the timeouts as
    they were. *)
Theorem C10_disabled_notifications_are_dropped :
  forall cfg : Config.t,
    Config.notifications cfg = false ->
    (forall now text s,
        App.addNotification cfg now text s = (Eff.Normal None, s)) /\
    (forall now net s,
        App.notifications (Eff.exec (App.fetchData_settle cfg now net) s)
        = App.notifications s /\
        App.timeouts (Eff.exec (App.fetchData_settle cfg now net) s)
        = App.timeouts s) /\
    (forall s, App.config s = cfg ->
       (forall now text, App.step s (App.Notify now text) = s) /\
       (forall now net,
           App.notifications (App.fetchData now net s) = App.notifications s /\
           App.timeouts (App.fetchData now net s) = App.timeouts s)).
Proof.
  intros cfg Hoff.
  assert (Hsettle : forall now net s,
             App.notifications (Eff.exec (App.fetchData_settle cfg now net) s)
             = App.notifications s /\
             App.timeouts (Eff.exec (App.fetchData_settle cfg now net) s)
             = App.timeouts s).
  { intros now net s. rewrite app_settle_cases.
    destruct (App.fetched net) as [[[g c] h]|];
      unfold settled_ok, settled_failed, Eff.exec;
      rewrite addNotification_disabled by assumption; now split. }
  split; [|split].
  - intros now text s. now apply addNotification_disabled.
  - exact Hsettle.
  - intros s Hs. split.
    + intros now text. simpl. unfold Eff.exec. rewrite Hs.
      now rewrite addNotification_disabled.
    + intros now net. unfold App.fetchData. rewrite Hs.
      destruct (Hsettle now net (Eff.exec App.fetchData_begin s)) as [-> ->].
      now split.
Qed.

Lemma C10_disabled_notifications_are_dropped_witness :
  Config.notifications (Config.set_notifications false Config.initial) = false /\
  App.addNotification (Config.set_notifications false Config.initial) 7 "Session Purged."
    App.initial
  = (Eff.Normal None, App.initial).
Proof.
  split; [reflexivity|].
  exact (proj1 (C10_disabled_notifications_are_dropped
                  (Config.set_notifications false Config.initial) eq_refl)
           7 "Session Purged." App.initial).
Defined.

(** ** Chat *)

Lemma update_last_snoc {A} (f : A -> A) (l : list A) (x : A) :
  Chat.update_last f (l ++ [x])%list = (l ++ [f x])%list.
Proof.
  induction l as [|y l IH]; [reflexivity|].
  simpl app. simpl Chat.update_last. rewrite IH.
  destruct l; reflexivity.
Qed.

Lemma last_message_snoc (l : list Chat.ChatMessage) (m : Chat.ChatMessage) :
  Chat.last_message (l ++ [m])%list = Some m.
Proof.
  induction l as [|y l IH]; [reflexivity|].
  simpl app. simpl Chat.last_message. rewrite IH.
  destruct l; reflexivity.
Qed.

Lemma last_streaming_snoc (l : list Chat.ChatMessage) (m : Chat.ChatMessage) :
  Chat.last_streaming (l ++ [m])%list = Chat.streaming m.
Proof. unfold Chat.last_streaming. now rewrite last_message_snoc. Qed.

Lemma chat_inv_initial : chat_inv Chat.initial.
Proof. now split. Qed.

Lemma chat_inv_begin (now : Z) (s : Chat.State) :
  chat_inv s -> chat_inv (Chat.sendMessage_begin now s).
Proof.
  intros H. unfold Chat.sendMessage_begin.
  destruct (negb (JS.truthy (JS.trim (Chat.chatInput s))) || Chat.isAiTyping s)%bool;
    [exact H|].
  unfold chat_inv. simpl. split; [reflexivity|].
  now rewrite last_streaming_snoc.
Qed.

Lemma chat_inv_step (s : Chat.State) (e : Chat.event) :
  chat_inv s -> chat_inv (Chat.step s e).
Proof.
  intros H. destruct e as [input|now| |now|c| |now].
  - destruct s as [msgs inp typing ref fr]. unfold chat_inv in *. simpl in *.
    destruct fr; exact H.
  - assert (Chat.step s (Chat.Send now) = Chat.sendMessage_begin now s) as ->
        by (simpl; destruct (Chat.frame s); reflexivity).
    now apply chat_inv_begin.
  - destruct s as [msgs inp typing ref fr]. unfold chat_inv in *.
    destruct fr; simpl in *; exact H.
  - destruct s as [msgs inp typing ref fr]. unfold chat_inv in *.
    destruct fr; simpl in *; try exact H.
    destruct H as [Ht _]. split; [exact Ht|]. eexists _, _. now repeat split.
  - destruct s as [msgs inp typing ref fr]. unfold chat_inv in *.
    destruct fr as [| |ft]; simpl in *; try exact H.
    destruct H as [Ht (pre & m & -> & Hr & Htx & Hs)]. split; [exact Ht|].
    rewrite update_last_snoc. unfold Chat.is_model. rewrite Hr.
    eexists _, _. now repeat split.
  - destruct s as [msgs inp typing ref fr]. unfold chat_inv in *.
    destruct fr as [| |ft]; simpl in *; try exact H.
    destruct H as [Ht (pre & m & -> & Hr & Htx & Hs)]. split; [reflexivity|].
    rewrite update_last_snoc, last_streaming_snoc.
    unfold Chat.is_model. now rewrite Hr.
  - destruct s as [msgs inp typing ref fr]. unfold chat_inv in *.
    destruct fr as [| |ft]; simpl in *; try exact H;
      (split; [reflexivity | now rewrite last_streaming_snoc]).
Qed.

Lemma chat_inv_run (es : list Chat.event) :
  forall s, chat_inv s -> chat_inv (Chat.run s es).
Proof.
  induction es as [|e es IH]; intros s H; [exact H|].
  simpl. apply IH, chat_inv_step, H.
Qed.

(** While the last message is streaming the busy flag is up. *)
Lemma streaming_implies_typing (s : Chat.State) :
  chat_inv s -> Chat.last_streaming (Chat.chatMessages s) = true ->
  Chat.isAiTyping s = true.
Proof.
  unfold chat_inv. destruct (Chat.frame s); intros [Ht Hl] Hs; congruence.
Qed.

Lemma begin_rejected_when_typing (now : Z) (s : Chat.State) :
  Chat.isAiTyping s = true -> Chat.sendMessage_begin now s = s.
Proof.
  intros H. unfold Chat.sendMessage_begin. rewrite H, orb_true_r. reflexivity.
Qed.

Lemma concat_chunks_snoc (cs : list (option string)) (c : option string) :
  Chat.concat_chunks (cs ++ [c]) = Chat.concat_chunks cs ++ Chat.chunk_text c.
Proof.
  unfold Chat.concat_chunks. induction cs as [|x cs IH]; simpl.
  - apply append_nil_r.
  - rewrite IH. now rewrite append_assoc.
Qed.

(** The loop over the chunks: the last message carries the text so far
    and nothing else moves. *)
Lemma run_chunks (cs : list (option string)) :
  forall s pre m,
    Chat.frame s = Chat.Streaming (Chat.text m) ->
    Chat.chatMessages s = (pre ++ [m])%list ->
    Chat.role m = Chat.model ->
    let t := Chat.text m ++ Chat.concat_chunks cs in
    let s' := Chat.run s (map Chat.Chunk cs) in
    Chat.chatMessages s' = (pre ++ [Chat.set_text t m])%list /\
    Chat.frame s' = Chat.Streaming t /\
    Chat.isAiTyping s' = Chat.isAiTyping s /\
    Chat.chatInput s' = Chat.chatInput s.
Proof.
  induction cs as [|c cs IH]; intros s pre m Hf Hm Hr; cbv zeta.
  - simpl. unfold Chat.concat_chunks. simpl. rewrite append_nil_r.
    repeat split; try assumption.
    rewrite Hm. now destruct m.
  - change (Chat.run s (map Chat.Chunk (c :: cs)))
      with (Chat.run (Chat.step s (Chat.Chunk c)) (map Chat.Chunk cs)).
    assert (Chat.step s (Chat.Chunk c)
            = Chat.sendMessage_chunk (Chat.text m) c s) as ->
        by (unfold Chat.step; now rewrite Hf).
    specialize (IH (Chat.sendMessage_chunk (Chat.text m) c s) pre
                  (Chat.set_text (Chat.text m ++ Chat.chunk_text c) m)).
    cbv zeta in IH. destruct IH as (H1 & H2 & H3 & H4).
    + reflexivity.
    + simpl. rewrite Hm, update_last_snoc. unfold Chat.is_model. now rewrite Hr.
    + exact Hr.
    + unfold Chat.run in *. rewrite H1, H2, H3, H4.
      change (Chat.concat_chunks (c :: cs))
        with (Chat.chunk_text c ++ Chat.concat_chunks cs).
      simpl Chat.text. rewrite append_assoc. now repeat split.
Qed.

Lemma run_app (s : Chat.State) (es1 es2 : list Chat.event) :
  Chat.run s (es1 ++ es2) = Chat.run (Chat.run s es1) es2.
Proof. apply fold_left_app. Qed.

(** An accepted [sendMessage] up to the end of the loop. *)
Lemma exchange_streams (s : Chat.State) (now1 now2 : Z) (cs : list (option string)) :
  Chat.isAiTyping s = false ->
  JS.truthy (JS.trim (Chat.chatInput s)) = true ->
  let s' := Chat.run s ([Chat.Send now1; Chat.Opened now2] ++ map Chat.Chunk cs) in
  Chat.chatMessages s'
  = (Chat.chatMessages s
     ++ [userMsg s now1; assistantMsg (Chat.concat_chunks cs) now2 (Some true)])%list /\
  Chat.frame s' = Chat.Streaming (Chat.concat_chunks cs) /\
  Chat.isAiTyping s' = true.
Proof.
  intros Ht Hi. cbv zeta. rewrite run_app.
  assert (Hbegin : Chat.step s (Chat.Send now1)
                   = Chat.set_frame Chat.Opening
                       (Chat.setIsAiTyping true
                          (Chat.setChatInput EmptyString
                             (Chat.setChatMessages
                                (fun prev => (prev ++ [userMsg s now1])%list) s)))).
  { assert (Chat.step s (Chat.Send now1) = Chat.sendMessage_begin now1 s) as ->
        by (simpl; destruct (Chat.frame s); reflexivity).
    unfold Chat.sendMessage_begin. rewrite Ht, Hi. reflexivity. }
  change (Chat.run s [Chat.Send now1; Chat.Opened now2])
    with (Chat.step (Chat.step s (Chat.Send now1)) (Chat.Opened now2)).
  rewrite Hbegin.
  change (Chat.step ?x (Chat.Opened now2)) with (Chat.sendMessage_opened now2 x).
  match goal with |- context [Chat.run ?s2 _] =>
    destruct (run_chunks cs s2 (Chat.chatMessages s ++ [userMsg s now1])%list
                (assistantMsg EmptyString now2 (Some true)))
      as (H1 & H2 & H3 & _); [reflexivity | reflexivity | reflexivity |]
  end.
  simpl in H1, H2, H3. rewrite H1, H2, H3.
  rewrite <- app_assoc. now repeat split.
Qed.

Lemma concat_chunks_joined (cs : list (option string)) :
  Chat.concat_chunks cs = joined cs.
Proof.
  unfold Chat.concat_chunks. induction cs as [|[t|] cs IH]; simpl.
  - reflexivity.
  - now rewrite IH.
  - exact IH.
Qed.

Lemma joined_app (cs1 cs2 : list (option string)) :
  joined (cs1 ++ cs2) = joined cs1 ++ joined cs2.
Proof.
  induction cs1 as [|[t|] cs1 IH]; simpl.
  - reflexivity.
  - now rewrite IH, append_assoc.
  - exact IH.
Qed.

(** C7: the chunks of one exchange end up concatenated, in arrival order,
    in the assistant message.  After any number of chunks the assistant
    message holds the texts of the chunks so far one after the other, a
    further chunk puts its text behind what was there (a chunk without
    text adds nothing), and when the stream ends the message holds the
    texts of all chunks with the streaming flag false; [Hel] and [lo]
    give [Hello], and no chunk at all gives the empty text, flag false,
    with the busy flag down. *)
Theorem C7_chunks_are_concatenated_in_order :
  forall (s : Chat.State) (now1 now2 : Z) (chunks : list (option string)),
    Chat.isAiTyping s = false ->
    JS.truthy (JS.trim (Chat.chatInput s)) = true ->
    (forall cs,
        Chat.chatMessages
          (Chat.run s ([Chat.Send now1; Chat.Opened now2] ++ map Chat.Chunk cs))
        = (Chat.chatMessages s
           ++ [userMsg s now1; assistantMsg (joined cs) now2 (Some true)])%list) /\
    (forall cs t, joined (cs ++ [Some t]) = joined cs ++ t) /\
    (forall cs, joined (cs ++ [None]) = joined cs) /\
    (forall texts, joined (map Some texts) = fold_right String.append EmptyString texts) /\
    (let s' := Chat.run s ([Chat.Send now1; Chat.Opened now2]
                           ++ map Chat.Chunk chunks ++ [Chat.Done]) in
     Chat.chatMessages s'
     = (Chat.chatMessages s
        ++ [userMsg s now1; assistantMsg (joined chunks) now2 (Some false)])%list /\
     Chat.isAiTyping s' = false /\ Chat.frame s' = Chat.Idle) /\
    Chat.chatMessages (Chat.run s [Chat.Send now1; Chat.Opened now2; Chat.Done])
    = (Chat.chatMessages s
       ++ [userMsg s now1; assistantMsg EmptyString now2 (Some false)])%list /\
    Chat.chatMessages
      (Chat.run s [Chat.Send now1; Chat.Opened now2; Chat.Chunk (Some "Hel");
                   Chat.Chunk (Some "lo"); Chat.Done])
    = (Chat.chatMessages s
       ++ [userMsg s now1; assistantMsg "Hello" now2 (Some false)])%list.
Proof.
  intros s now1 now2 chunks Ht Hi.
  assert (Hdone : forall cs,
             let s' := Chat.run s ([Chat.Send now1; Chat.Opened now2]
                                   ++ map Chat.Chunk cs ++ [Chat.Done]) in
             Chat.chatMessages s'
             = (Chat.chatMessages s
                ++ [userMsg s now1; assistantMsg (joined cs) now2 (Some false)])%list /\
             Chat.isAiTyping s' = false /\ Chat.frame s' = Chat.Idle).
  { intros cs. cbv zeta. rewrite app_assoc, run_app.
    destruct (exchange_streams s now1 now2 cs Ht Hi) as (H1 & H2 & H3).
    remember (Chat.run s ([Chat.Send now1; Chat.Opened now2] ++ map Chat.Chunk cs))
      as s1 eqn:E. clear E.
    simpl. unfold Chat.step. rewrite H2. simpl. rewrite H1, concat_chunks_joined.
    change (Chat.chatMessages s
            ++ [userMsg s now1; assistantMsg (joined cs) now2 (Some true)])%list
      with (Chat.chatMessages s
            ++ [userMsg s now1]
            ++ [assistantMsg (joined cs) now2 (Some true)])%list.
    rewrite app_assoc, update_last_snoc, <- app_assoc. now repeat split. }
  split; [|split; [|split; [|split; [|split; [|split]]]]].
  - intros cs. rewrite <- concat_chunks_joined.
    apply (exchange_streams s now1 now2 cs Ht Hi).
  - intros cs t. rewrite joined_app. simpl. now rewrite append_nil_r.
  - intros cs. rewrite joined_app. simpl. apply append_nil_r.
  - intros texts. induction texts as [|t texts IH]; simpl; [reflexivity | now rewrite IH].
  - apply Hdone.
  - apply (Hdone []).
  - apply (Hdone [Some "Hel"; Some "lo"]).
Qed.

Lemma C7_chunks_are_concatenated_in_order_witness :
  Chat.isAiTyping greeting = false /\
  JS.truthy (JS.trim (Chat.chatInput greeting)) = true /\
  Chat.chatMessages
    (Chat.run greeting
       [Chat.Send 1; Chat.Opened 2; Chat.Chunk (Some "Hel"); Chat.Chunk (Some "lo");
        Chat.Done])
  = (Chat.chatMessages greeting
     ++ [userMsg greeting 1; assistantMsg "Hello" 2 (Some false)])%list.
Proof.
  split; [reflexivity | split; [reflexivity|]].
  exact (proj2 (proj2 (proj2 (proj2 (proj2 (proj2
           (C7_chunks_are_concatenated_in_order greeting 1 2 [] eq_refl eq_refl))))))).
Defined.




(** C3 fails on the source: after a stream that broke, the partial
    assistant message is still marked as streaming although it is no
    longer the last message, and the next exchange adds a second
    streaming message. *)
Theorem C3_broken_stream_leaves_streaming_message :
  let s := Chat.run Chat.initial broken_exchange in
  Chat.chatMessages s
  = [ {| Chat.role := Chat.user; Chat.text := "hi"; Chat.timestamp := 1;
         Chat.isStreaming := None |};
      assistantMsg "Hel" 2 (Some true);
      assistantMsg Chat.fallbackText 3 None ] /\
  Chat.streaming_only_last (Chat.chatMessages s) = false /\
  List.length
    (filter Chat.streaming
       (Chat.chatMessages
          (Chat.run s [Chat.Type_ "again"; Chat.Send 4; Chat.Opened 5])))
  = 2%nat.
Proof. cbv zeta. repeat split. Qed.

Lemma streaming_only_last_snoc (l : list Chat.ChatMessage) (m : Chat.ChatMessage) :
  Chat.streaming_only_last (l ++ [m])%list
  = forallb (fun x => negb (Chat.streaming x)) l.
Proof.
  induction l as [|y l IH]; [reflexivity|].
  simpl app. simpl forallb. rewrite <- IH.
  destruct l; reflexivity.
Qed.

Lemma forallb_snoc {A} (p : A -> bool) (l : list A) (x : A) :
  forallb p (l ++ [x])%list = (forallb p l && p x)%bool.
Proof. rewrite forallb_app. simpl. now rewrite andb_true_r. Qed.

(** On the paths that do not go through the [catch] the invariant of the
    log holds: the completion path clears the flag the error path
    leaves. *)
Lemma streaming_only_last_without_failure (es : list Chat.event) :
  forall s,
    chat_inv s ->
    Chat.streaming_only_last (Chat.chatMessages s) = true ->
    Forall (fun e => forall now, e <> Chat.Failed now) es ->
    Chat.streaming_only_last (Chat.chatMessages (Chat.run s es)) = true.
Proof.
  induction es as [|e es IH]; intros s Hinv Hs Hes; [exact Hs|].
  inversion Hes as [|? ? He Hes']; subst.
  simpl. apply IH; [now apply chat_inv_step | | exact Hes'].
  clear IH Hes Hes'.
  assert (Happend : forall m,
             Chat.last_streaming (Chat.chatMessages s) = false ->
             Chat.streaming_only_last (Chat.chatMessages s ++ [m])%list = true).
  { intros m Hl. rewrite streaming_only_last_snoc.
    destruct (Chat.chatMessages s) as [|x l] eqn:E using rev_ind; [reflexivity|].
    rewrite forallb_snoc. rewrite streaming_only_last_snoc in Hs.
    rewrite last_streaming_snoc in Hl. now rewrite Hs, Hl. }
  destruct e as [input|now| |now|c| |now].
  - exact Hs.
  - assert (Chat.step s (Chat.Send now) = Chat.sendMessage_begin now s) as ->
        by (simpl; destruct (Chat.frame s); reflexivity).
    unfold Chat.sendMessage_begin.
    destruct (negb (JS.truthy (JS.trim (Chat.chatInput s))) || Chat.isAiTyping s)%bool
      eqn:G; [exact Hs|].
    simpl. apply Happend.
    apply orb_false_elim in G. destruct G as [_ G].
    unfold chat_inv in Hinv. destruct (Chat.frame s); destruct Hinv; congruence.
  - unfold Chat.step. destruct (Chat.frame s); exact Hs.
  - unfold Chat.step. unfold chat_inv in Hinv.
    destruct (Chat.frame s); try exact Hs.
    simpl. apply Happend. now destruct Hinv.
  - unfold Chat.step. unfold chat_inv in Hinv.
    destruct (Chat.frame s); try exact Hs.
    destruct Hinv as [_ (pre & m & Hm & _)]. simpl. rewrite Hm in *.
    rewrite update_last_snoc, streaming_only_last_snoc.
    now rewrite streaming_only_last_snoc in Hs.
  - unfold Chat.step. unfold chat_inv in Hinv.
    destruct (Chat.frame s); try exact Hs.
    destruct Hinv as [_ (pre & m & Hm & _)]. simpl. rewrite Hm in *.
    rewrite update_last_snoc, streaming_only_last_snoc.
    now rewrite streaming_only_last_snoc in Hs.
  - exfalso. now apply (He now).
Qed.

(** ** Busy guards *)

(** C4, as stated, fails for [refresh]: a call made while another one is
    outstanding is taken like any other, and when it settles it replaces
    the snapshot. *)
Lemma C4_overlapping_refresh_is_accepted :
  let s := App.run App.initial [App.RefreshStarts] in
  App.outstanding s = [Config.initial] /\
  App.loading s = true /\
  App.step s App.RefreshStarts <> s /\
  App.snapshot (App.run s [App.RefreshStarts; App.RefreshSettles 1 0 sample_net])
  <> App.snapshot s.
Proof.
  cbv zeta. split; [reflexivity | split; [reflexivity | split]].
  - intros H. apply (f_equal App.outstanding) in H. discriminate.
  - vm_compute. discriminate.
Qed.

(** C4 (amended): [sendMessage] called while the last message is
    streaming returns at once and changes nothing, the message list
    included (the same holds whenever the busy flag is up); it returns
    nothing to tell the caller.  [fetchData] has no such guard: a call
    made while others are outstanding is started like any other, and when
    its three fetches succeed it replaces the snapshot. *)
Theorem C4_send_is_guarded_refresh_is_not :
  (forall es now,
      let s := Chat.run Chat.initial es in
      Chat.last_streaming (Chat.chatMessages s) = true ->
      Chat.step s (Chat.Send now) = s) /\
  (forall s now, Chat.isAiTyping s = true -> Chat.step s (Chat.Send now) = s) /\
  (forall s,
      let s1 := App.step s App.RefreshStarts in
      App.outstanding s1 = (App.outstanding s ++ [App.config s])%list /\
      App.loading s1 = true /\
      App.snapshot s1 = App.snapshot s /\
      forall now net snap,
        App.fetched net = Some snap ->
        App.snapshot
          (App.step s1 (App.RefreshSettles (List.length (App.outstanding s)) now net))
        = snap).
Proof.
  assert (Hguard : forall s now,
             Chat.isAiTyping s = true -> Chat.step s (Chat.Send now) = s).
  { intros s now H.
    assert (Chat.step s (Chat.Send now) = Chat.sendMessage_begin now s) as ->
        by (simpl; destruct (Chat.frame s); reflexivity).
    now apply begin_rejected_when_typing. }
  split; [|split].
  - intros es now s H. apply Hguard.
    apply streaming_implies_typing; [|exact H].
    apply chat_inv_run, chat_inv_initial.
  - exact Hguard.
  - intros s. cbv zeta. split; [reflexivity | split; [reflexivity | split; [reflexivity|]]].
    intros now net snap Hf.
    change (App.step ?x (App.RefreshSettles ?k now net))
      with (match nth_error (App.outstanding x) k with
            | None => x
            | Some cfg =>
                Eff.exec (App.fetchData_settle cfg now net)
                  (App.with_outstanding
                     (fun l => (firstn k l ++ skipn (S k) l)%list) x)
            end).
    change (App.outstanding (App.step s App.RefreshStarts))
      with (App.outstanding s ++ [App.config s])%list.
    rewrite nth_error_app2 by lia. rewrite Nat.sub_diag. simpl nth_error.
    cbv iota. rewrite app_settle_snapshot. now rewrite Hf.
Qed.

Lemma C4_send_is_guarded_refresh_is_not_witness :
  let s := Chat.run Chat.initial [Chat.Type_ "hi"; Chat.Send 1; Chat.Opened 2] in
  Chat.last_streaming (Chat.chatMessages s) = true /\
  Chat.step s (Chat.Send 9) = s.
Proof.
  cbv zeta. split; [reflexivity|].
  exact (proj1 C4_send_is_guarded_refresh_is_not
           [Chat.Type_ "hi"; Chat.Send 1; Chat.Opened 2] 9 eq_refl).
Defined.

(** ** Sorting with a comparator *)

Section ArraySort.

Context {A : Type}.
Variable cmp : A -> A -> Z.
Variable le : A -> A -> Prop.
Variable key : A -> Z.

Hypothesis cmp_le : forall x y, cmp x y <= 0 -> le x y.
Hypothesis cmp_gt : forall x y, 0 < cmp x y -> le y x.
Hypothesis le_trans : forall x y z, le x y -> le y z -> le x z.
Hypothesis cmp_same_key : forall x y, key x = key y -> cmp x y <= 0.

Lemma sort_insert_perm (x : A) (l : list A) :
  Permutation (x :: l) (JS.sort_insert cmp x l).
Proof.
  induction l as [|y l IH]; simpl; [apply Permutation_refl|].
  destruct (cmp x y <=? 0); [apply Permutation_refl|].
  eapply perm_trans; [apply perm_swap|]. now apply perm_skip.
Qed.

Lemma Array_sort_perm (l : list A) : Permutation (JS.Array_sort cmp l) l.
Proof.
  induction l as [|x l IH]; simpl; [constructor|].
  eapply perm_trans; [apply Permutation_sym, sort_insert_perm|].
  now apply perm_skip.
Qed.





End ArraySort.

(** ** Country table *)





Lemma SortKey_eqb_eq (a b : Dashboard.SortKey) :
  Dashboard.SortKey_eqb a b = true <-> a = b.
Proof. destruct a, b; simpl; split; congruence. Qed.



(** ** Refresh scheduler *)

Lemma run_cleanup_clears (s : Scheduler.State) :
  sched_inv s ->
  Scheduler.intervals (Scheduler.run_cleanup s) = [] /\
  Scheduler.cleanup (Scheduler.run_cleanup s) = None /\
  Scheduler.fresh (Scheduler.run_cleanup s) = Scheduler.fresh s /\
  Scheduler.clock (Scheduler.run_cleanup s) = Scheduler.clock s /\
  Scheduler.firings (Scheduler.run_cleanup s) = Scheduler.firings s.
Proof.
  unfold sched_inv, Scheduler.run_cleanup.
  destruct (Scheduler.cleanup s) as [h|] eqn:E.
  - intros (i & Hi & Hh & _). simpl. rewrite Hi. simpl.
    rewrite Hh, Nat.eqb_refl. simpl. now repeat split.
  - intros Hi. now repeat split.
Qed.

Lemma start_arms_one (p : Z) (s : Scheduler.State) :
  sched_inv s ->
  Scheduler.intervals (Scheduler.start p s)
  = [{| Scheduler.handle := Scheduler.fresh s; Scheduler.rate := p;
        Scheduler.delay := p * 1000;
        Scheduler.next := Scheduler.clock s + p * 1000 |}] /\
  Scheduler.cleanup (Scheduler.start p s) = Some (Scheduler.fresh s) /\
  Scheduler.firings (Scheduler.start p s) = Scheduler.firings s.
Proof.
  intros H. destruct (run_cleanup_clears s H) as (Hi & _ & Hf & Hc & Hfi).
  unfold Scheduler.start, Scheduler.effect. simpl.
  now rewrite Hi, Hf, Hc, Hfi.
Qed.

Lemma callback_fields (i : Scheduler.Interval) (s : Scheduler.State) :
  Scheduler.intervals s = [i] ->
  let s' := Scheduler.callback i s in
  (exists i', Scheduler.intervals s' = [i'] /\
              Scheduler.handle i' = Scheduler.handle i /\
              Scheduler.rate i' = Scheduler.rate i /\
              Scheduler.delay i' = Scheduler.delay i) /\
  Scheduler.cleanup s' = Scheduler.cleanup s /\
  Scheduler.firings s'
  = (Scheduler.firings s
     ++ [{| Scheduler.at_time := Scheduler.clock s;
            Scheduler.by_handle := Scheduler.handle i;
            Scheduler.period := Scheduler.delay i;
            Scheduler.fetched := Scheduler.rate i >? 0 |}])%list.
Proof.
  intros Hi. unfold Scheduler.callback.
  destruct (Scheduler.rate i >? 0); simpl; rewrite Hi; simpl;
    rewrite Nat.eqb_refl; (split; [eexists; now repeat split | now split]).
Qed.

Lemma fire_cases (h : nat) (i : Scheduler.Interval) (s : Scheduler.State) :
  Scheduler.intervals s = [i] ->
  Scheduler.fire h s = s \/
  (Scheduler.handle i = h /\ Scheduler.next i <= Scheduler.clock s /\
   Scheduler.fire h s = Scheduler.callback i s).
Proof.
  intros Hi. unfold Scheduler.fire. rewrite Hi. simpl.
  destruct (Nat.eqb (Scheduler.handle i) h) eqn:E; [|now left].
  destruct (Scheduler.next i <=? Scheduler.clock s) eqn:D; [|now left].
  right. apply Nat.eqb_eq in E. apply Z.leb_le in D. now repeat split.
Qed.

Lemma sched_inv_step (s : Scheduler.State) (e : Scheduler.event) :
  sched_inv s -> sched_inv (Scheduler.step s e).
Proof.
  intros H. destruct e as [p| |ms|h]; simpl.
  - destruct (start_arms_one p s H) as (Hi & Hc & _).
    unfold sched_inv. rewrite Hc, Hi. eexists. now repeat split.
  - destruct (run_cleanup_clears s H) as (Hi & Hc & _).
    unfold sched_inv, Scheduler.stop. now rewrite Hc.
  - exact H.
  - unfold sched_inv in *. destruct (Scheduler.cleanup s) as [h0|] eqn:E.
    + destruct H as (i & Hi & Hh & Hd).
      destruct (fire_cases h i s Hi) as [-> | (_ & _ & ->)].
      * rewrite E. now exists i.
      * destruct (callback_fields i s Hi) as ((i' & Hi' & Hh' & Hr' & Hd') & Hc & _).
        rewrite Hc, E. exists i'. repeat split; congruence.
    + unfold Scheduler.fire. rewrite H. simpl. now rewrite E.
Qed.

Lemma sched_inv_run (es : list Scheduler.event) :
  forall s, sched_inv s -> sched_inv (Scheduler.run s es).
Proof.
  induction es as [|e es IH]; intros s H; [exact H|].
  simpl. apply IH, sched_inv_step, H.
Qed.

(** While nothing restarts the scheduler, whatever fires is the one
    interval that is armed, at its delay. *)
Lemma passive_firings (es : list Scheduler.event) :
  forall s i,
    Scheduler.intervals s = [i] ->
    forallb passive es = true ->
    exists new,
      Scheduler.firings (Scheduler.run s es) = (Scheduler.firings s ++ new)%list /\
      Forall (fun f => Scheduler.by_handle f = Scheduler.handle i /\
                       Scheduler.period f = Scheduler.delay i) new.
Proof.
  induction es as [|e es IH]; intros s i Hi Hp.
  - exists []. simpl. now rewrite app_nil_r.
  - simpl in Hp. apply andb_true_iff in Hp. destruct Hp as [He Hp].
    destruct e as [p| |ms|h]; try discriminate; simpl.
    + apply (IH (Scheduler.elapse ms s) i); assumption.
    + destruct (fire_cases h i s Hi) as [-> | (_ & _ & ->)].
      * now apply IH.
      * destruct (callback_fields i s Hi) as ((i' & Hi' & Hh' & _ & Hd') & _ & Hf).
        destruct (IH (Scheduler.callback i s) i' Hi' Hp) as (new & Hn & Hall).
        eexists (_ :: new). unfold Scheduler.run in *.
        rewrite Hn, Hf, <- app_assoc. split; [reflexivity|].
        constructor; [now split|].
        rewrite Hh', Hd' in Hall. exact Hall.
Qed.

Lemma sched_run_app (s : Scheduler.State) (es1 es2 : list Scheduler.event) :
  Scheduler.run s (es1 ++ es2) = Scheduler.run (Scheduler.run s es1) es2.
Proof. apply fold_left_app. Qed.

(** C9: the scheduler never has more than one interval armed.  Setting a
    period clears the interval that was armed and arms one new interval
    with the new period, and as long as the period is not set again
    every firing is a firing of that interval, at that period.  After
    [start(10)] and [start(5)] the only firings are those of the second
    interval, every five seconds. *)
Theorem C9_one_interval_at_the_latest_period :
  (forall es,
      let s := Scheduler.run Scheduler.initial es in
      (List.length (Scheduler.intervals s) <= 1)%nat /\
      (forall h, Scheduler.cleanup s = Some h ->
                 exists i, Scheduler.intervals s = [i] /\ Scheduler.handle i = h)) /\
  (forall es p,
      let s := Scheduler.run Scheduler.initial es in
      Scheduler.intervals (Scheduler.start p s)
      = [{| Scheduler.handle := Scheduler.fresh s; Scheduler.rate := p;
            Scheduler.delay := p * 1000;
            Scheduler.next := Scheduler.clock s + p * 1000 |}]) /\
  (forall es p later,
      forallb passive later = true ->
      let s := Scheduler.run Scheduler.initial es in
      exists new,
        Scheduler.firings
          (Scheduler.run Scheduler.initial (es ++ [Scheduler.Start p] ++ later))
        = (Scheduler.firings s ++ new)%list /\
        Forall (fun f => Scheduler.by_handle f = Scheduler.fresh s /\
                         Scheduler.period f = p * 1000) new) /\
  Scheduler.firings
    (Scheduler.run Scheduler.initial
       [Scheduler.Start 10; Scheduler.Start 5;
        Scheduler.Elapse 5000; Scheduler.Fire 1; Scheduler.Fire 2;
        Scheduler.Elapse 5000; Scheduler.Fire 1; Scheduler.Fire 2])
  = [{| Scheduler.at_time := 5000; Scheduler.by_handle := 2%nat;
        Scheduler.period := 5000; Scheduler.fetched := true |};
     {| Scheduler.at_time := 10000; Scheduler.by_handle := 2%nat;
        Scheduler.period := 5000; Scheduler.fetched := true |}].
Proof.
  assert (Hinv : forall es, sched_inv (Scheduler.run Scheduler.initial es))
    by (intros es; apply sched_inv_run; reflexivity).
  split; [|split; [|split]].
  - intros es s. specialize (Hinv es). fold s in Hinv. unfold sched_inv in Hinv.
    destruct (Scheduler.cleanup s) as [h|].
    + destruct Hinv as (i & Hi & Hh & _). rewrite Hi. split; [simpl; lia|].
      intros h' E. injection E as <-. now exists i.
    + rewrite Hinv. split; [simpl; lia | discriminate].
  - intros es p s. apply (start_arms_one p s (Hinv es)).
  - intros es p later Hp s.
    rewrite sched_run_app, sched_run_app. fold s.
    change (Scheduler.run s [Scheduler.Start p]) with (Scheduler.start p s).
    destruct (start_arms_one p s (Hinv es)) as (Hi & _ & Hf).
    destruct (passive_firings later (Scheduler.start p s) _ Hi Hp) as (new & Hn & Hall).
    exists new. rewrite Hn, Hf. split; [reflexivity | exact Hall].
  - reflexivity.
Qed.

Lemma C9_one_interval_at_the_latest_period_witness :
  forallb passive [Scheduler.Elapse 5000; Scheduler.Fire 1; Scheduler.Fire 2] = true /\
  exists new,
    Scheduler.firings
      (Scheduler.run Scheduler.initial
         ([Scheduler.Start 10] ++ [Scheduler.Start 5]
          ++ [Scheduler.Elapse 5000; Scheduler.Fire 1; Scheduler.Fire 2]))
    = (Scheduler.firings (Scheduler.run Scheduler.initial [Scheduler.Start 10])
       ++ new)%list /\
    Forall (fun f =>
              Scheduler.by_handle f
              = Scheduler.fresh (Scheduler.run Scheduler.initial [Scheduler.Start 10]) /\
              Scheduler.period f = 5 * 1000) new.
Proof.
  split; [reflexivity|].
  exact (proj1 (proj2 (proj2 C9_one_interval_at_the_latest_period))
           [Scheduler.Start 10] 5
           [Scheduler.Elapse 5000; Scheduler.Fire 1; Scheduler.Fire 2] eq_refl).
Defined.

(** ** Instances *)

Lemma C5_export_joins_values_verbatim_witness :
  (forall v, In v (map snd [("b", Exporter.JsString "x"); ("n", Exporter.JsNumber 42)]) ->
             Exporter.needs_quoting (Exporter.join_item v) = false) /\
  Exporter.row [("b", Exporter.JsString "x"); ("n", Exporter.JsNumber 42)]
  = Exporter.spec_row [("b", Exporter.JsString "x"); ("n", Exporter.JsNumber 42)].
Proof.
  assert (H : forall v,
             In v (map snd [("b", Exporter.JsString "x"); ("n", Exporter.JsNumber 42)]) ->
             Exporter.needs_quoting (Exporter.join_item v) = false).
  { intros v [<- | [<- | []]]; reflexivity. }
  split; [exact H|].
  exact (proj2 (proj1 (proj2 (proj2 (proj2
           (C5_export_joins_values_verbatim example_record [] "nexus_full_registry"))))
           [("b", Exporter.JsString "x"); ("n", Exporter.JsNumber 42)]) H).
Defined.

(** * Further properties of the code *)

(** ** Searching *)

Lemma startsWith_iff (s p : string) :
  JS.startsWith s p = true <-> exists b, s = p ++ b.
Proof.
  revert s. induction p as [|a p IH]; intros s; simpl.
  - split; [intros _; now exists s | intros _; now destruct s].
  - destruct s as [|c s].
    + split; [discriminate | intros [b Hb]; discriminate].
    + change (JS.startsWith (String c s) (String a p))
        with (Ascii.eqb a c && JS.startsWith s p)%bool.
      rewrite andb_true_iff, IH. split.
      * intros [Hc [b ->]]. apply Ascii.eqb_eq in Hc. subst. now exists b.
      * intros [b Hb]. injection Hb as -> ->. split; [apply Ascii.eqb_refl | now exists b].
Qed.

(** [includes] finds exactly the texts that occur somewhere. *)
Lemma includes_iff (s p : string) :
  JS.includes s p = true <-> exists a b, s = a ++ p ++ b.
Proof.
  induction s as [|c s IH].
  - change (JS.includes EmptyString p)
      with (JS.startsWith EmptyString p || false)%bool.
    rewrite orb_false_r, startsWith_iff. split.
    + intros [b Hb]. now exists EmptyString, b.
    + intros (a & b & H). destruct a; [now exists b | discriminate].
  - change (JS.includes (String c s) p)
      with (JS.startsWith (String c s) p || JS.includes s p)%bool.
    rewrite orb_true_iff, startsWith_iff, IH. split.
    + intros [[b Hb] | (a & b & ->)].
      * now exists EmptyString, b.
      * now exists (String c a), b.
    + intros (a & b & H). destruct a as [|x a].
      * left. now exists b.
      * right. simpl in H. injection H as -> ->. now exists a, b.
Qed.

Lemma toLowerCase_app (a b : string) :
  JS.toLowerCase (a ++ b) = JS.toLowerCase a ++ JS.toLowerCase b.
Proof. induction a as [|c a IH]; simpl; [reflexivity | now rewrite IH]. Qed.

Lemma lower_upper_ascii (c : ascii) :
  JS.lower_ascii (Text.upper_ascii c) = JS.lower_ascii c.
Proof.
  destruct c as [[] [] [] [] [] [] [] []]; vm_compute; reflexivity.
Qed.

Lemma lower_lower_ascii (c : ascii) :
  JS.lower_ascii (JS.lower_ascii c) = JS.lower_ascii c.
Proof.
  destruct c as [[] [] [] [] [] [] [] []]; vm_compute; reflexivity.
Qed.

Lemma toLowerCase_toUpperCase (s : string) :
  JS.toLowerCase (Text.toUpperCase s) = JS.toLowerCase s.
Proof.
  induction s as [|c s IH]; simpl; [reflexivity|].
  now rewrite lower_upper_ascii, IH.
Qed.

Lemma toLowerCase_idempotent (s : string) :
  JS.toLowerCase (JS.toLowerCase s) = JS.toLowerCase s.
Proof.
  induction s as [|c s IH]; simpl; [reflexivity|].
  now rewrite lower_lower_ascii, IH.
Qed.

Lemma matches_iff (t : string) (c : CountryData.t) :
  Dashboard.matches t c = true <->
  exists a b, JS.toLowerCase (CountryData.country c) = a ++ JS.toLowerCase t ++ b.
Proof. unfold Dashboard.matches. apply includes_iff. Qed.

Lemma matches_empty (c : CountryData.t) : Dashboard.matches EmptyString c = true.
Proof. apply matches_iff. now exists EmptyString, (JS.toLowerCase (CountryData.country c)). Qed.

Lemma filter_all {A} (p : A -> bool) (l : list A) :
  (forall x, In x l -> p x = true) -> filter p l = l.
Proof.
  induction l as [|x l IH]; intros H; [reflexivity|].
  simpl. rewrite (H x (or_introl eq_refl)). f_equal.
  apply IH. intros y Hy. apply H. now right.
Qed.

(** X1: a search text matches a country exactly when the text, in lower
    case, occurs somewhere in the country's name in lower case. *)
Theorem X1_search_matches_occurrences :
  forall (t : string) (countries : list CountryData.t) (c : CountryData.t),
    In c (filter (Dashboard.matches t) countries) <->
    In c countries /\
    exists a b, JS.toLowerCase (CountryData.country c) = a ++ JS.toLowerCase t ++ b.
Proof.
  intros t countries c. rewrite filter_In, matches_iff. reflexivity.
Qed.

(** X2: with an empty search text nothing is filtered out: the sorted
    table holds every country when there are at most 100, and the
    registry table shows the first 80 countries as they came. *)
Theorem X2_empty_search_keeps_everything :
  forall (countries : list CountryData.t) (k : Dashboard.SortKey) (o : Dashboard.SortOrder),
    filter (Dashboard.matches EmptyString) countries = countries /\
    World.rows countries EmptyString = firstn 80 countries /\
    ((List.length countries <= 100)%nat ->
     Permutation (Dashboard.filteredAndSortedCountries countries EmptyString k o)
       countries).
Proof.
  intros countries k o.
  assert (H : filter (Dashboard.matches EmptyString) countries = countries)
    by (apply filter_all; intros x _; apply matches_empty).
  split; [exact H | split].
  - unfold World.rows. now rewrite H.
  - intros Hlen. unfold Dashboard.filteredAndSortedCountries, JS.slice0, Dashboard.MAX_ROWS.
    rewrite H. rewrite firstn_all2.
    + apply Array_sort_perm.
    + rewrite (Permutation_length (Array_sort_perm _ countries)). exact Hlen.
Qed.

Lemma X2_empty_search_keeps_everything_witness :
  (List.length three_countries <= 100)%nat /\
  Permutation
    (Dashboard.filteredAndSortedCountries three_countries EmptyString
       Dashboard.Cases Dashboard.Desc)
    three_countries.
Proof.
  assert (H : (List.length three_countries <= 100)%nat) by (simpl; lia).
  split; [exact H|].
  exact (proj2 (proj2 (X2_empty_search_keeps_everything three_countries
                         Dashboard.Cases Dashboard.Desc)) H).
Defined.

(** X3: for ASCII texts and names, typing more never brings rows back:
    a country that matches a longer search text matches every text the
    longer one was built from by adding characters in front or
    behind. *)
Theorem X3_longer_search_narrows :
  forall (pre t post : string) (countries : list CountryData.t) (c : CountryData.t),
    ascii_only (pre ++ t ++ post) = true ->
    ascii_only (CountryData.country c) = true ->
    In c (filter (Dashboard.matches (pre ++ t ++ post)) countries) ->
    In c (filter (Dashboard.matches t) countries).
Proof.
  intros pre t post countries c _ _. rewrite !filter_In, !matches_iff.
  intros [Hin (a & b & H)]. split; [exact Hin|].
  rewrite !toLowerCase_app in H.
  exists (a ++ JS.toLowerCase pre), (JS.toLowerCase post ++ b).
  rewrite H, !append_assoc. reflexivity.
Qed.

Lemma X3_longer_search_narrows_witness :
  ascii_only (EmptyString ++ "fra" ++ "n") = true /\
  ascii_only (CountryData.country (country_named "France" 3)) = true /\
  In (country_named "France" 3)
     (filter (Dashboard.matches (EmptyString ++ "fra" ++ "n")) three_countries) /\
  In (country_named "France" 3) (filter (Dashboard.matches "fra") three_countries).
Proof.
  assert (H : In (country_named "France" 3)
                (filter (Dashboard.matches (EmptyString ++ "fra" ++ "n")) three_countries))
    by (vm_compute; left; reflexivity).
  split; [reflexivity | split; [reflexivity | split; [exact H|]]].
  exact (X3_longer_search_narrows EmptyString "fra" "n" three_countries
           (country_named "France" 3) eq_refl eq_refl H).
Defined.

(** X4: the search does not look at case: the text in capitals and the
    text in small letters select the same countries. *)
Theorem X4_search_ignores_case :
  forall (t : string) (countries : list CountryData.t),
    filter (Dashboard.matches (Text.toUpperCase t)) countries
    = filter (Dashboard.matches t) countries /\
    filter (Dashboard.matches (JS.toLowerCase t)) countries
    = filter (Dashboard.matches t) countries.
Proof.
  intros t countries. split; apply filter_ext; intros c; unfold Dashboard.matches.
  - now rewrite toLowerCase_toUpperCase.
  - now rewrite toLowerCase_idempotent.
Qed.

(** ** Table order *)





Lemma SortKey_eqb_refl (k : Dashboard.SortKey) : Dashboard.SortKey_eqb k k = true.
Proof. now destruct k. Qed.

(** X6: clicking the header of the active sort key twice gives back the
    state as it was; clicking another header twice selects that key in
    ascending order.  Neither touches the data or the search text. *)
Theorem X6_toggleSort_twice :
  forall (s : Dashboard.State) (key : Dashboard.SortKey),
    let s2 := Dashboard.toggleSort key (Dashboard.toggleSort key s) in
    (Dashboard.sortKey s = key -> s2 = s) /\
    (Dashboard.sortKey s <> key ->
     Dashboard.sortKey s2 = key /\ Dashboard.sortOrder s2 = Dashboard.Asc) /\
    Dashboard.snapshot s2 = Dashboard.snapshot s /\
    Dashboard.searchTerm s2 = Dashboard.searchTerm s.
Proof.
  intros s key s2. subst s2. split; [|split; [|split]].
  - intros <-. destruct s as [l e g c h t k o tr].
    unfold Dashboard.toggleSort. simpl. rewrite SortKey_eqb_refl. simpl.
    rewrite SortKey_eqb_refl. simpl. now destruct o.
  - intros Hne. unfold Dashboard.toggleSort.
    destruct (Dashboard.SortKey_eqb (Dashboard.sortKey s) key) eqn:E.
    + apply SortKey_eqb_eq in E. contradiction.
    + simpl. rewrite SortKey_eqb_refl. now split.
  - now rewrite !dash_toggleSort_snapshot.
  - unfold Dashboard.toggleSort.
    destruct (Dashboard.SortKey_eqb (Dashboard.sortKey s) key) eqn:E; simpl.
    + rewrite E. reflexivity.
    + rewrite SortKey_eqb_refl. reflexivity.
Qed.

Lemma X6_toggleSort_twice_witness :
  Dashboard.sortKey Dashboard.initial = Dashboard.Cases /\
  Dashboard.toggleSort Dashboard.Cases
    (Dashboard.toggleSort Dashboard.Cases Dashboard.initial)
  = Dashboard.initial.
Proof.
  split; [reflexivity|].
  exact (proj1 (X6_toggleSort_twice Dashboard.initial Dashboard.Cases) eq_refl).
Defined.

(** ** Notification timers *)

Lemma in_remove_nth {A} (l : list A) :
  forall k t x,
    nth_error l k = Some t -> In x l -> x <> t ->
    In x (firstn k l ++ skipn (S k) l)%list.
Proof.
  induction l as [|a l IH]; intros k t x Hk Hx Hne; [contradiction|].
  destruct k as [|k]; simpl in *.
  - injection Hk as ->. destruct Hx as [-> | Hx]; [contradiction | exact Hx].
  - destruct Hx as [-> | Hx]; [now left | right]. now apply (IH k t).
Qed.

Lemma timers_pending_addNotification cfg now text s :
  timers_pending s ->
  timers_pending (Eff.exec (App.addNotification cfg now text) s).
Proof.
  intros H. unfold Eff.exec, App.addNotification.
  destruct (Config.notifications cfg); [|exact H].
  simpl. intros n Hn. simpl in *.
  apply in_app_or in Hn. apply in_or_app. destruct Hn as [Hn | [<- | []]].
  - left. now apply H.
  - right. now left.
Qed.

Lemma timers_pending_step (s : App.State) (e : App.event) :
  timers_pending s -> timers_pending (App.step s e).
Proof.
  intros H. destruct e as [c|now text|k| |k now net]; simpl.
  - exact H.
  - now apply timers_pending_addNotification.
  - unfold App.fire_timeout.
    destruct (nth_error (App.timeouts s) k) as [t|] eqn:E; [|exact H].
    intros n Hn. simpl in *. apply filter_In in Hn. destruct Hn as [Hn Hid].
    apply (in_remove_nth _ k t); [exact E | now apply H |].
    intros Heq. rewrite <- Heq in Hid. simpl in Hid.
    now rewrite Z.eqb_refl in Hid.
  - exact H.
  - destruct (nth_error (App.outstanding s) k) as [cfg|]; [|exact H].
    rewrite app_settle_cases.
    destruct (App.fetched net) as [[[g c] h]|]; unfold settled_ok, settled_failed;
      match goal with
      | |- timers_pending (App.setLoading false (Eff.exec ?a ?s0)) =>
          assert (Hs : timers_pending (Eff.exec a s0))
            by (apply timers_pending_addNotification; exact H);
          exact Hs
      end.
Qed.

(** X7: in every reachable state each notification on the list has a
    removal timer pending for its id, due 5000 ms after the notification
    was made: no notification is left without the timer that takes it
    away. *)
Theorem X7_every_notification_has_its_timer :
  forall (es : list App.event) (n : App.Notification),
    In n (App.notifications (App.run App.initial es)) ->
    In {| App.due := App.id n + 5000; App.target := App.id n |}
       (App.timeouts (App.run App.initial es)).
Proof.
  intros es.
  assert (H : forall s, timers_pending s -> timers_pending (App.run s es)).
  { induction es as [|e es IH]; intros s Hs; [exact Hs|].
    simpl. apply IH, timers_pending_step, Hs. }
  apply H. intros n [].
Qed.

Lemma X7_every_notification_has_its_timer_witness :
  In {| App.id := 7; App.text := "Session Purged." |}
     (App.notifications (App.run App.initial [App.Notify 7 "Session Purged."])) /\
  In {| App.due := 5007; App.target := 7 |}
     (App.timeouts (App.run App.initial [App.Notify 7 "Session Purged."])).
Proof.
  assert (H : In {| App.id := 7; App.text := "Session Purged." |}
                (App.notifications
                   (App.run App.initial [App.Notify 7 "Session Purged."])))
    by (left; reflexivity).
  split; [exact H|].
  exact (X7_every_notification_has_its_timer
           [App.Notify 7 "Session Purged."] _ H).
Defined.

Lemma filter_comm {A} (p q : A -> bool) (l : list A) :
  filter p (filter q l) = filter q (filter p l).
Proof.
  induction l as [|x l IH]; [reflexivity|].
  simpl. destruct (p x) eqn:P, (q x) eqn:Q; simpl; rewrite ?P, ?Q, IH; reflexivity.
Qed.

Lemma filter_twice {A} (p : A -> bool) (l : list A) :
  filter p (filter p l) = filter p l.
Proof.
  induction l as [|x l IH]; [reflexivity|].
  simpl. destruct (p x) eqn:P; simpl; rewrite ?P, IH; reflexivity.
Qed.

(** X8: the callback of a removal timer takes away every notification
    with its id (notifications made in the same millisecond share one)
    and no other; running it again changes nothing, and two callbacks
    give the same list in either order. *)
Theorem X8_expiry_is_idempotent_and_commutes :
  forall (s : App.State) (a b : Z),
    (forall n, In n (App.notifications (App.expire a s)) <->
               In n (App.notifications s) /\ App.id n <> a) /\
    App.expire a (App.expire a s) = App.expire a s /\
    App.expire a (App.expire b s) = App.expire b (App.expire a s).
Proof.
  intros s a b. split; [|split].
  - intros n. simpl. rewrite filter_In, negb_true_iff, Z.eqb_neq. reflexivity.
  - unfold App.expire, App.setNotifications. simpl. now rewrite filter_twice.
  - unfold App.expire, App.setNotifications. simpl. f_equal. apply filter_comm.
Qed.

(** ** What a refresh leaves besides the snapshot *)

Lemma app_settle_fields (cfg : Config.t) (now : Z) (net : Net.Responses) (s : App.State) :
  let s' := Eff.exec (App.fetchData_settle cfg now net) s in
  App.loading s' = false /\
  App.outstanding s' = App.outstanding s /\
  App.config s' = App.config s /\
  App.systemStatus s'
  = match App.fetched net with Some _ => "Active" | None => "Error" end.
Proof.
  cbv zeta. rewrite app_settle_cases.
  destruct (App.fetched net) as [[[g c] h]|];
    unfold settled_ok, settled_failed, Eff.exec, App.addNotification;
    destruct (Config.notifications cfg); now repeat split.
Qed.

(** X9: [loading] is a flag, not a count: whenever a refresh settles the
    flag goes down, also when other refreshes are still outstanding. *)
Theorem X9_loading_drops_at_the_first_settle :
  forall (s : App.State) (k : nat) (cfg : Config.t) (now : Z) (net : Net.Responses),
    nth_error (App.outstanding s) k = Some cfg ->
    let s' := App.step s (App.RefreshSettles k now net) in
    App.loading s' = false /\
    S (List.length (App.outstanding s')) = List.length (App.outstanding s) /\
    ((2 <= List.length (App.outstanding s))%nat -> App.outstanding s' <> []).
Proof.
  intros s k cfg now net Hk. cbv zeta.
  change (App.step s (App.RefreshSettles k now net))
    with (match nth_error (App.outstanding s) k with
          | None => s
          | Some cfg0 =>
              Eff.exec (App.fetchData_settle cfg0 now net)
                (App.with_outstanding
                   (fun l => (firstn k l ++ skipn (S k) l)%list) s)
          end).
  rewrite Hk.
  match goal with |- context [Eff.exec ?c ?s0] =>
    destruct (app_settle_fields cfg now net s0) as (Hl & Ho & _)
  end.
  rewrite Hl, Ho.
  change (App.outstanding (App.with_outstanding ?f s)) with (f (App.outstanding s)).
  cbv beta.
  remember (firstn k (App.outstanding s) ++ skipn (S k) (App.outstanding s))%list
    as rest eqn:Hrest.
  assert (Hlen : S (List.length rest) = List.length (App.outstanding s)).
  { assert (Hlt : (k < List.length (App.outstanding s))%nat)
      by (apply nth_error_Some; congruence).
    rewrite Hrest, length_app, firstn_length_le, length_skipn by lia. lia. }
  split; [reflexivity | split; [exact Hlen|]].
  intros H2 Hnil. rewrite Hnil in Hlen. simpl in Hlen. lia.
Qed.

Lemma X9_loading_drops_at_the_first_settle_witness :
  let s := App.run App.initial [App.RefreshStarts; App.RefreshStarts] in
  nth_error (App.outstanding s) 0 = Some Config.initial /\
  App.loading (App.step s (App.RefreshSettles 0 5 sample_net)) = false /\
  App.outstanding (App.step s (App.RefreshSettles 0 5 sample_net)) <> [].
Proof.
  cbv zeta. split; [reflexivity|].
  pose proof (X9_loading_drops_at_the_first_settle
                (App.run App.initial [App.RefreshStarts; App.RefreshStarts])
                0 Config.initial 5 sample_net eq_refl) as H.
  cbv zeta in H. destruct H as (Hl & _ & Hne).
  split; [exact Hl | apply Hne; simpl; lia].
Defined.

Lemma delivers_or_breaks (net : Net.Responses) :
  (exists g c h, delivers net g c h) \/ breaks net.
Proof.
  destruct (App.fetched net) as [snap|] eqn:E.
  - left. apply app_fetched_delivers in E. destruct E as (g & c & h & Hd & _).
    now exists g, c, h.
  - right. now apply breaks_iff.
Qed.

(** X10: a refresh of the first variant reports how it went.  When the
    three promises resolved and the three bodies parsed, whatever the
    HTTP status, the status becomes [Active]; when a promise rejected or
    a body did not parse it becomes [Error] and the snapshot stays; one
    of the two is always the case.  The notification list gets exactly
    one new entry, with the text for the outcome and the time of the
    report as id, when the callback was built with notifications on, and
    stays as it is when it was built with notifications off. *)
Theorem X10_refresh_reports_its_outcome :
  forall (cfg : Config.t) (now : Z) (net : Net.Responses) (s : App.State),
    let s' := Eff.exec (App.fetchData_settle cfg now net) s in
    ((exists g c h, delivers net g c h) \/ breaks net) /\
    ((exists g c h, delivers net g c h) -> App.systemStatus s' = "Active") /\
    (breaks net -> App.systemStatus s' = "Error" /\ App.snapshot s' = App.snapshot s) /\
    (Config.notifications cfg = true ->
     ((exists g c h, delivers net g c h) ->
      App.notifications s'
      = (App.notifications s
         ++ [{| App.id := now; App.text := "Quantum Data Link Established." |}])%list) /\
     (breaks net ->
      App.notifications s'
      = (App.notifications s
         ++ [{| App.id := now;
                App.text := "Critical: API Cluster Unresponsive." |}])%list)) /\
    (Config.notifications cfg = false -> App.notifications s' = App.notifications s).
Proof.
  intros cfg now net s. cbv zeta.
  assert (Hd : (exists g c h, delivers net g c h) -> App.fetched net <> None).
  { intros (g & c & h & H) E.
    assert (App.fetched net = Some (Some g, c, Some h))
      by (apply app_fetched_delivers; now exists g, c, h).
    congruence. }
  split; [apply delivers_or_breaks|].
  rewrite app_settle_cases.
  split; [|split; [|split]].
  - intros H. apply Hd in H.
    destruct (App.fetched net) as [[[g c] h]|]; [|contradiction].
    unfold settled_ok, Eff.exec, App.addNotification.
    destruct (Config.notifications cfg); reflexivity.
  - intros H. apply breaks_iff in H. rewrite H.
    unfold settled_failed, Eff.exec, App.addNotification.
    destruct (Config.notifications cfg); now split.
  - intros Hon. split.
    + intros H. apply Hd in H.
      destruct (App.fetched net) as [[[g c] h]|]; [|contradiction].
      unfold settled_ok, Eff.exec. now rewrite addNotification_enabled.
    + intros H. apply breaks_iff in H. rewrite H.
      unfold settled_failed, Eff.exec. now rewrite addNotification_enabled.
  - intros Hoff.
    destruct (App.fetched net) as [[[g c] h]|];
      unfold settled_ok, settled_failed, Eff.exec;
      now rewrite addNotification_disabled.
Qed.

Lemma X10_refresh_reports_its_outcome_witness :
  (exists g c h, delivers http_error_net g c h) /\
  App.systemStatus
    (Eff.exec (App.fetchData_settle Config.initial 5 http_error_net) App.initial)
  = "Active".
Proof.
  assert (H : exists g c h, delivers http_error_net g c h).
  { exists sample_stats, [], sample_history. eexists _, _, _. repeat split. }
  split; [exact H|].
  exact (proj1 (proj2 (X10_refresh_reports_its_outcome Config.initial 5 http_error_net
                         App.initial)) H).
Defined.

Lemma dash_settle_fields (net : Net.Responses) (s : Dashboard.State) :
  let s' := Eff.exec (Dashboard.fetchData_settle net) s in
  Dashboard.loading s' = false /\
  Dashboard.searchTerm s' = Dashboard.searchTerm s /\
  Dashboard.sortKey s' = Dashboard.sortKey s /\
  Dashboard.sortOrder s' = Dashboard.sortOrder s /\
  (Dashboard.fetched net <> None -> Dashboard.error s' = Dashboard.error s) /\
  (Dashboard.fetched net = None -> exists m, Dashboard.error s' = Some m).
Proof.
  cbv zeta. destruct_net net;
    unfold Eff.exec, Dashboard.fetchData_settle, Dashboard.fetched,
      Eff.try_catch_finally, Eff.bind, Eff.modify, Eff.ret, Eff.throw,
      Net.Promise_all, Net.await, Net.json;
    simpl;
    repeat match goal with b : bool |- _ => destruct b end; simpl;
    repeat split; try congruence; intros _; eexists; reflexivity.
Qed.

(** X11: in the second variant the error banner follows the last
    refresh: a whole call leaves [error] empty when it replaced the
    snapshot and leaves a message when it did not, and in both cases
    [loading] is down and the search text, the sort key and the sort
    order are what they were. *)
Theorem X11_error_banner_follows_the_refresh :
  forall (net : Net.Responses) (s : Dashboard.State),
    let s' := Dashboard.fetchData net s in
    (Dashboard.error s' = None <-> Dashboard.fetched net <> None) /\
    Dashboard.loading s' = false /\
    Dashboard.searchTerm s' = Dashboard.searchTerm s /\
    Dashboard.sortKey s' = Dashboard.sortKey s /\
    Dashboard.sortOrder s' = Dashboard.sortOrder s.
Proof.
  intros net s. cbv zeta. unfold Dashboard.fetchData.
  destruct (dash_settle_fields net (Eff.exec Dashboard.fetchData_begin s))
    as (Hl & Ht & Hk & Ho & Hok & Hfail).
  cbv zeta in *. rewrite Hl, Ht, Hk, Ho. repeat split.
  - intros He Hf. destruct (Hfail Hf) as [m Hm]. congruence.
  - intros Hf. now rewrite (Hok Hf).
Qed.

(** X12: the two variants differ on HTTP errors.  When the three
    requests are answered and the bodies parse but an answer is not
    [ok], the first variant takes the bodies as the new snapshot, while
    the second keeps its snapshot and shows [API failed to respond]. *)
Theorem X12_only_the_second_variant_checks_ok :
  forall (rg : Net.Response GlobalStats.t) (rc : Net.Response (list CountryData.t))
         (rh : Net.Response HistoricalData.t) g c h
         (now : Z) (s1 : App.State) (s2 : Dashboard.State),
    Net.body rg = inl g -> Net.body rc = inl c -> Net.body rh = inl h ->
    (Net.ok rg && Net.ok rc && Net.ok rh)%bool = false ->
    let net := {| Net.all := Net.Resolved rg; Net.countries := Net.Resolved rc;
                  Net.historical := Net.Resolved rh |} in
    App.snapshot (App.fetchData now net s1) = (Some g, c, Some h) /\
    Dashboard.snapshot (Dashboard.fetchData net s2) = Dashboard.snapshot s2 /\
    Dashboard.error (Dashboard.fetchData net s2) = Some "API failed to respond".
Proof.
  intros [og bg] [oc bc] [oh bh] g c h now s1 s2 Hg Hc Hh Hok. simpl in *. subst.
  cbv zeta. split.
  - unfold App.fetchData. rewrite app_settle_snapshot. reflexivity.
  - destruct og, oc, oh; try discriminate; split; reflexivity.
Qed.

Lemma X12_only_the_second_variant_checks_ok_witness :
  Dashboard.error
    (Dashboard.fetchData
       {| Net.all := Net.Resolved {| Net.ok := false; Net.body := inl sample_stats |};
          Net.countries := Net.Resolved {| Net.ok := true; Net.body := inl [] |};
          Net.historical :=
            Net.Resolved {| Net.ok := true; Net.body := inl sample_history |} |}
       Dashboard.initial)
  = Some "API failed to respond".
Proof.
  exact (proj2 (proj2 (X12_only_the_second_variant_checks_ok
           {| Net.ok := false; Net.body := inl sample_stats |}
           {| Net.ok := true; Net.body := inl [] |}
           {| Net.ok := true; Net.body := inl sample_history |}
           sample_stats [] sample_history 0 App.initial Dashboard.initial
           eq_refl eq_refl eq_refl eq_refl))).
Defined.

(** ** The interval between restarts *)

Lemma callback_fetches (i : Scheduler.Interval) (s : Scheduler.State) :
  Scheduler.intervals s = [i] ->
  let s' := Scheduler.callback i s in
  Scheduler.fetchCalls s'
  = (Scheduler.fetchCalls s
     ++ if Scheduler.rate i >? 0 then [Scheduler.clock s] else [])%list /\
  Scheduler.clock s' = Scheduler.clock s /\
  exists i', Scheduler.intervals s' = [i'] /\
             Scheduler.handle i' = Scheduler.handle i /\
             Scheduler.rate i' = Scheduler.rate i /\
             Scheduler.delay i' = Scheduler.delay i /\
             Scheduler.next i' = Scheduler.clock s + Scheduler.delay i.
Proof.
  intros Hi. unfold Scheduler.callback.
  destruct (Scheduler.rate i >? 0); simpl; rewrite Hi; simpl;
    rewrite Nat.eqb_refl, ?app_nil_r;
    (split; [reflexivity | split; [reflexivity | eexists; now repeat split]]).
Qed.

(** Between restarts the firings of the armed interval keep their
    distance. *)
Lemma passive_run_spaced (es : list Scheduler.event) :
  forall s i,
    Scheduler.intervals s = [i] ->
    forallb passive es = true ->
    Scheduler.next i <= Scheduler.clock s + Scheduler.delay i ->
    0 <= Scheduler.delay i ->
    exists new,
      Scheduler.firings (Scheduler.run s es) = (Scheduler.firings s ++ new)%list /\
      spaced (Scheduler.next i - Scheduler.delay i) (Scheduler.delay i) new.
Proof.
  induction es as [|e es IH]; intros s i Hi Hp Hn Hd.
  - exists []. simpl. now rewrite !app_nil_r.
  - simpl in Hp. apply andb_true_iff in Hp. destruct Hp as [He Hp].
    destruct e as [p| |ms|h]; try discriminate.
    + change (Scheduler.run s (Scheduler.Elapse ms :: es))
        with (Scheduler.run (Scheduler.elapse ms s) es).
      destruct (IH (Scheduler.elapse ms s) i Hi Hp) as (new & H1 & H3);
        [simpl; lia | exact Hd |].
      exists new. now split.
    + change (Scheduler.run s (Scheduler.Fire h :: es))
        with (Scheduler.run (Scheduler.fire h s) es).
      destruct (fire_cases h i s Hi) as [-> | (_ & Hdue & ->)].
      * now apply IH.
      * destruct (callback_fetches i s Hi)
          as (_ & Hc & i' & Hi' & Hh' & Hr' & Hd' & Hn').
        destruct (callback_fields i s Hi) as (_ & _ & Hfi).
        destruct (IH (Scheduler.callback i s) i' Hi' Hp) as (new & H1 & H3);
          [rewrite Hn', Hc, Hd'; lia | rewrite Hd'; exact Hd |].
        eexists (_ :: new). rewrite H1, Hfi, <- !app_assoc.
        split; [reflexivity|].
        simpl. split; [lia|].
        rewrite Hn', Hd' in H3.
        replace (Scheduler.clock s + Scheduler.delay i - Scheduler.delay i)
          with (Scheduler.clock s) in H3 by lia.
        exact H3.
Qed.

Lemma passive_run_fetches (es : list Scheduler.event) :
  forall s i,
    Scheduler.intervals s = [i] ->
    forallb passive es = true ->
    exists new,
      Scheduler.firings (Scheduler.run s es) = (Scheduler.firings s ++ new)%list /\
      Scheduler.fetchCalls (Scheduler.run s es)
      = (Scheduler.fetchCalls s
         ++ if Scheduler.rate i >? 0 then map Scheduler.at_time new else [])%list.
Proof.
  induction es as [|e es IH]; intros s i Hi Hp.
  - exists []. simpl. rewrite !app_nil_r.
    destruct (Scheduler.rate i >? 0); now rewrite ?app_nil_r.
  - simpl in Hp. apply andb_true_iff in Hp. destruct Hp as [He Hp].
    destruct e as [p| |ms|h]; try discriminate.
    + change (Scheduler.run s (Scheduler.Elapse ms :: es))
        with (Scheduler.run (Scheduler.elapse ms s) es).
      destruct (IH (Scheduler.elapse ms s) i Hi Hp) as (new & H1 & H2).
      exists new. now split.
    + change (Scheduler.run s (Scheduler.Fire h :: es))
        with (Scheduler.run (Scheduler.fire h s) es).
      destruct (fire_cases h i s Hi) as [-> | (_ & Hdue & ->)].
      * now apply IH.
      * destruct (callback_fetches i s Hi)
          as (Hf & Hc & i' & Hi' & Hh' & Hr' & Hd' & Hn').
        destruct (callback_fields i s Hi) as (_ & _ & Hfi).
        destruct (IH (Scheduler.callback i s) i' Hi' Hp) as (new & H1 & H2).
        eexists (_ :: new). rewrite H1, H2, Hfi, Hf, Hr', <- !app_assoc.
        split; [reflexivity|].
        destruct (Scheduler.rate i >? 0); reflexivity.
Qed.

(** X13: every setting of the period calls [fetchData] at once; after
    that the interval fetches once per firing when the period is
    positive and never when it is zero (manual mode), although the
    interval still fires. *)
Theorem X13_period_zero_only_fetches_at_start :
  forall (es later : list Scheduler.event) (p : Z),
    forallb passive later = true ->
    let s := Scheduler.run Scheduler.initial es in
    let s1 := Scheduler.start p s in
    let s2 := Scheduler.run s1 later in
    Scheduler.fetchCalls s1 = (Scheduler.fetchCalls s ++ [Scheduler.clock s])%list /\
    exists new,
      Scheduler.firings s2 = (Scheduler.firings s ++ new)%list /\
      Scheduler.fetchCalls s2
      = (Scheduler.fetchCalls s1
         ++ if p >? 0 then map Scheduler.at_time new else [])%list.
Proof.
  intros es later p Hp. cbv zeta.
  remember (Scheduler.run Scheduler.initial es) as s eqn:Es.
  assert (Hinv : sched_inv s) by (subst s; apply sched_inv_run; reflexivity).
  clear Es.
  destruct (run_cleanup_clears s Hinv) as (_ & _ & _ & Hcl & _).
  destruct (start_arms_one p s Hinv) as (Hi & _ & Hf).
  assert (Hcalls : Scheduler.fetchCalls (Scheduler.start p s)
                   = (Scheduler.fetchCalls s ++ [Scheduler.clock s])%list).
  { unfold Scheduler.start, Scheduler.effect. simpl. rewrite Hcl. f_equal.
    unfold Scheduler.run_cleanup. destruct (Scheduler.cleanup s); reflexivity. }
  remember (Scheduler.start p s) as s1 eqn:E1. clear E1.
  split; [exact Hcalls|].
  destruct (passive_run_fetches later s1 _ Hi Hp) as (new & H1 & H2).
  exists new. cbn [Scheduler.rate] in H2.
  rewrite H1, H2, Hf. now split.
Qed.

Lemma X13_period_zero_only_fetches_at_start_witness :
  forallb passive [Scheduler.Elapse 10; Scheduler.Fire 1; Scheduler.Fire 1] = true /\
  exists new,
    Scheduler.firings
      (Scheduler.run (Scheduler.start 0 (Scheduler.run Scheduler.initial []))
         [Scheduler.Elapse 10; Scheduler.Fire 1; Scheduler.Fire 1])
    = (Scheduler.firings (Scheduler.run Scheduler.initial []) ++ new)%list /\
    Scheduler.fetchCalls
      (Scheduler.run (Scheduler.start 0 (Scheduler.run Scheduler.initial []))
         [Scheduler.Elapse 10; Scheduler.Fire 1; Scheduler.Fire 1])
    = (Scheduler.fetchCalls (Scheduler.start 0 (Scheduler.run Scheduler.initial []))
       ++ if 0 >? 0 then map Scheduler.at_time new else [])%list.
Proof.
  split; [reflexivity|].
  exact (proj2 (X13_period_zero_only_fetches_at_start []
                  [Scheduler.Elapse 10; Scheduler.Fire 1; Scheduler.Fire 1] 0
                  eq_refl)).
Defined.

Lemma spaced_not_before (d : Z) (l : list Scheduler.Firing) :
  0 <= d ->
  forall t0, spaced t0 d l -> Forall (fun f => t0 + d <= Scheduler.at_time f) l.
Proof.
  intros Hd. induction l as [|f l IH]; intros t0 H; [constructor|].
  destruct H as [H1 H2]. constructor; [exact H1|].
  eapply Forall_impl; [|apply (IH _ H2)]. intros g Hg. simpl in Hg. lia.
Qed.

(** X14: the interval never fires early: after the period is set to [p]
    seconds, and until it is set again, no firing comes sooner than [p]
    seconds after the setting. *)
Theorem X14_no_firing_before_one_period :
  forall (es later : list Scheduler.event) (p : Z),
    forallb passive later = true ->
    0 <= p ->
    let s := Scheduler.run Scheduler.initial es in
    exists new,
      Scheduler.firings (Scheduler.run (Scheduler.start p s) later)
      = (Scheduler.firings s ++ new)%list /\
      Forall (fun f => Scheduler.clock s + p * 1000 <= Scheduler.at_time f) new.
Proof.
  intros es later p Hp H0. cbv zeta.
  remember (Scheduler.run Scheduler.initial es) as s eqn:Es.
  assert (Hinv : sched_inv s) by (subst s; apply sched_inv_run; reflexivity).
  clear Es.
  destruct (run_cleanup_clears s Hinv) as (_ & _ & _ & Hcl & _).
  destruct (start_arms_one p s Hinv) as (Hi & _ & Hf).
  assert (Hclock : Scheduler.clock (Scheduler.start p s) = Scheduler.clock s)
    by (unfold Scheduler.start, Scheduler.effect; simpl; exact Hcl).
  remember (Scheduler.start p s) as s1 eqn:E1. clear E1.
  destruct (passive_run_spaced later s1 _ Hi Hp) as (new & H1 & H3);
    [cbn [Scheduler.next Scheduler.delay]; rewrite Hclock; lia
    | cbn [Scheduler.delay]; lia |].
  exists new. rewrite H1, Hf. split; [reflexivity|].
  cbn [Scheduler.next Scheduler.delay] in H3.
  replace (Scheduler.clock s + p * 1000 - p * 1000) with (Scheduler.clock s) in H3 by lia.
  apply spaced_not_before; [lia | exact H3].
Qed.

Lemma X14_no_firing_before_one_period_witness :
  forallb passive [Scheduler.Elapse 5000; Scheduler.Fire 1; Scheduler.Elapse 5000;
                   Scheduler.Fire 1] = true /\
  0 <= 5 /\
  exists new,
    Scheduler.firings
      (Scheduler.run (Scheduler.start 5 (Scheduler.run Scheduler.initial []))
         [Scheduler.Elapse 5000; Scheduler.Fire 1; Scheduler.Elapse 5000;
          Scheduler.Fire 1])
    = (Scheduler.firings (Scheduler.run Scheduler.initial []) ++ new)%list /\
    Forall (fun f => Scheduler.clock (Scheduler.run Scheduler.initial []) + 5 * 1000
                     <= Scheduler.at_time f) new.
Proof.
  split; [reflexivity | split; [lia|]].
  exact (X14_no_firing_before_one_period []
           [Scheduler.Elapse 5000; Scheduler.Fire 1; Scheduler.Elapse 5000;
            Scheduler.Fire 1] 5 eq_refl ltac:(lia)).
Defined.

Lemma stopped_run (es : list Scheduler.event) :
  forall s,
    Scheduler.intervals s = [] ->
    forallb passive es = true ->
    Scheduler.intervals (Scheduler.run s es) = [] /\
    Scheduler.firings (Scheduler.run s es) = Scheduler.firings s /\
    Scheduler.fetchCalls (Scheduler.run s es) = Scheduler.fetchCalls s.
Proof.
  induction es as [|e es IH]; intros s Hi Hp; [now repeat split|].
  simpl in Hp. apply andb_true_iff in Hp. destruct Hp as [He Hp].
  destruct e as [p| |ms|h]; try discriminate.
  - change (Scheduler.run s (Scheduler.Elapse ms :: es))
      with (Scheduler.run (Scheduler.elapse ms s) es).
    destruct (IH (Scheduler.elapse ms s) Hi Hp) as (H1 & H2 & H3). now repeat split.
  - change (Scheduler.run s (Scheduler.Fire h :: es))
      with (Scheduler.run (Scheduler.fire h s) es).
    assert (Scheduler.fire h s = s) as ->
        by (unfold Scheduler.fire; now rewrite Hi).
    now apply IH.
Qed.

(** X15: tearing the component down clears the interval: after [stop],
    whatever time passes and whichever handle the runtime is asked to
    run, nothing fires and [fetchData] is not called, until the period
    is set again. *)
Theorem X15_nothing_fires_after_stop :
  forall (es later : list Scheduler.event),
    forallb passive later = true ->
    let s := Scheduler.stop (Scheduler.run Scheduler.initial es) in
    Scheduler.intervals (Scheduler.run s later) = [] /\
    Scheduler.firings (Scheduler.run s later) = Scheduler.firings s /\
    Scheduler.fetchCalls (Scheduler.run s later) = Scheduler.fetchCalls s.
Proof.
  intros es later Hp s.
  assert (Hinv : sched_inv (Scheduler.run Scheduler.initial es))
    by (apply sched_inv_run; reflexivity).
  destruct (run_cleanup_clears _ Hinv) as (Hi & _).
  apply stopped_run; [exact Hi | exact Hp].
Qed.

Lemma X15_nothing_fires_after_stop_witness :
  forallb passive [Scheduler.Elapse 60000; Scheduler.Fire 1] = true /\
  Scheduler.firings
    (Scheduler.run (Scheduler.stop (Scheduler.run Scheduler.initial [Scheduler.Start 10]))
       [Scheduler.Elapse 60000; Scheduler.Fire 1])
  = Scheduler.firings (Scheduler.stop (Scheduler.run Scheduler.initial [Scheduler.Start 10])).
Proof.
  split; [reflexivity|].
  exact (proj1 (proj2 (X15_nothing_fires_after_stop [Scheduler.Start 10]
                         [Scheduler.Elapse 60000; Scheduler.Fire 1] eq_refl))).
Defined.

(** ** The conversation log *)

Lemma trimStart_all_space (s : string) :
  all_space (JS.trimStart s) = all_space s.
Proof.
  induction s as [|c s IH]; [reflexivity|].
  simpl. destruct (JS.is_space c) eqn:E; simpl; [exact IH | now rewrite E].
Qed.

Lemma trimEnd_empty_iff (s : string) :
  JS.trimEnd s = EmptyString <-> all_space s = true.
Proof.
  induction s as [|c s IH]; [now split|].
  simpl. destruct (JS.trimEnd s) as [|x t] eqn:E.
  - destruct (JS.is_space c); simpl.
    + split; [intros _; now apply IH | reflexivity].
    + split; discriminate.
  - split; [discriminate|]. intros H. apply andb_true_iff in H.
    destruct H as [_ H]. apply IH in H. discriminate.
Qed.

Lemma blank_iff (s : string) :
  JS.truthy (JS.trim s) = false <-> all_space s = true.
Proof.
  unfold JS.trim. rewrite <- trimStart_all_space, <- trimEnd_empty_iff.
  destruct (JS.trimEnd (JS.trimStart s)); simpl; split; congruence.
Qed.

(** X16: [sendMessage] does nothing at all when the busy flag is up or
    the input is empty or made of spaces, tabs and line breaks only; and
    for an input of ASCII characters these are the only cases: any other
    such input is taken. *)
Theorem X16_send_rejects_blank_input :
  forall (s : Chat.State) (now : Z),
    (all_space (Chat.chatInput s) = true \/ Chat.isAiTyping s = true ->
     Chat.step s (Chat.Send now) = s) /\
    (ascii_only (Chat.chatInput s) = true ->
     Chat.step s (Chat.Send now) = s ->
     all_space (Chat.chatInput s) = true \/ Chat.isAiTyping s = true).
Proof.
  intros s now.
  assert (Chat.step s (Chat.Send now) = Chat.sendMessage_begin now s) as ->
      by (simpl; destruct (Chat.frame s); reflexivity).
  unfold Chat.sendMessage_begin. rewrite <- blank_iff.
  destruct (JS.truthy (JS.trim (Chat.chatInput s))) eqn:T;
    destruct (Chat.isAiTyping s) eqn:B; simpl; split; try tauto.
  - intros [H | H]; discriminate.
  - intros _ H. apply (f_equal Chat.isAiTyping) in H. simpl in H. congruence.
Qed.

Lemma X16_send_rejects_blank_input_witness :
  all_space (Chat.chatInput (Chat.setChatInput "   " Chat.initial)) = true /\
  Chat.step (Chat.setChatInput "   " Chat.initial) (Chat.Send 1)
  = Chat.setChatInput "   " Chat.initial.
Proof.
  split; [reflexivity|].
  exact (proj1 (X16_send_rejects_blank_input (Chat.setChatInput "   " Chat.initial) 1)
           (or_introl eq_refl)).
Defined.

(** X17: when the exchange fails before the stream is there, the log
    gets the user message and the fallback message and nothing that is
    marked as streaming, and the busy flag is down. *)
Theorem X17_failure_before_the_stream :
  forall (s : Chat.State) (now1 now3 : Z),
    Chat.isAiTyping s = false ->
    JS.truthy (JS.trim (Chat.chatInput s)) = true ->
    let s' := Chat.run s [Chat.Send now1; Chat.Failed now3] in
    Chat.chatMessages s'
    = (Chat.chatMessages s
       ++ [userMsg s now1; assistantMsg Chat.fallbackText now3 None])%list /\
    filter Chat.streaming (Chat.chatMessages s')
    = filter Chat.streaming (Chat.chatMessages s) /\
    Chat.isAiTyping s' = false /\
    Chat.chatInput s' = EmptyString.
Proof.
  intros s now1 now3 Ht Hi. cbv zeta.
  change (Chat.run s [Chat.Send now1; Chat.Failed now3])
    with (Chat.step (Chat.step s (Chat.Send now1)) (Chat.Failed now3)).
  assert (Chat.step s (Chat.Send now1) = Chat.sendMessage_begin now1 s) as ->
      by (simpl; destruct (Chat.frame s); reflexivity).
  unfold Chat.sendMessage_begin. rewrite Ht, Hi. simpl.
  rewrite <- app_assoc. split; [reflexivity|].
  rewrite filter_app. simpl. now rewrite app_nil_r.
Qed.

Lemma X17_failure_before_the_stream_witness :
  Chat.isAiTyping greeting = false /\
  JS.truthy (JS.trim (Chat.chatInput greeting)) = true /\
  Chat.chatMessages (Chat.run greeting [Chat.Send 1; Chat.Failed 3])
  = (Chat.chatMessages greeting
     ++ [userMsg greeting 1; assistantMsg Chat.fallbackText 3 None])%list.
Proof.
  split; [reflexivity | split; [reflexivity|]].
  exact (proj1 (X17_failure_before_the_stream greeting 1 3 eq_refl eq_refl)).
Defined.

Lemma update_last_length {A} (f : A -> A) (l : list A) :
  List.length (Chat.update_last f l) = List.length l.
Proof.
  induction l as [|x l IH]; [reflexivity|].
  destruct l as [|y l]; [reflexivity|].
  change (Chat.update_last f (x :: y :: l)) with (x :: Chat.update_last f (y :: l)).
  simpl List.length in *. now rewrite IH.
Qed.

Lemma update_last_nth {A} (f : A -> A) (l : list A) :
  forall i m,
    nth_error l i = Some m ->
    (S i < List.length l)%nat \/ f m = m ->
    nth_error (Chat.update_last f l) i = Some m.
Proof.
  induction l as [|x l IH]; intros i m Hn Hc; [destruct i; discriminate|].
  destruct l as [|y l].
  - destruct i as [|i]; [|destruct i; discriminate].
    simpl in *. injection Hn as ->. destruct Hc as [Hc | Hc]; [lia | now rewrite Hc].
  - change (Chat.update_last f (x :: y :: l)) with (x :: Chat.update_last f (y :: l)).
    destruct i as [|i]; [exact Hn|].
    simpl nth_error in *. apply IH; [exact Hn|].
    destruct Hc as [Hc | Hc]; [left; simpl List.length in *; lia | now right].
Qed.

Lemma chat_step_keeps (s : Chat.State) (e : Chat.event) :
  (List.length (Chat.chatMessages s) <= List.length (Chat.chatMessages (Chat.step s e)))%nat /\
  forall i m,
    nth_error (Chat.chatMessages s) i = Some m ->
    (S i < List.length (Chat.chatMessages s))%nat \/ Chat.role m = Chat.user ->
    nth_error (Chat.chatMessages (Chat.step s e)) i = Some m.
Proof.
  assert (Happ : forall x,
             (List.length (Chat.chatMessages s)
              <= List.length (Chat.chatMessages s ++ [x])%list)%nat /\
             forall i m,
               nth_error (Chat.chatMessages s) i = Some m ->
               nth_error (Chat.chatMessages s ++ [x])%list i = Some m).
  { intros x. split; [rewrite length_app; simpl; lia|].
    intros i m Hn. rewrite nth_error_app1; [exact Hn|].
    apply nth_error_Some. congruence. }
  assert (Hupd : forall g : Chat.ChatMessage -> Chat.ChatMessage,
             (List.length (Chat.chatMessages s)
              <= List.length
                   (Chat.update_last (fun last => if Chat.is_model last then g last else last)
                      (Chat.chatMessages s)))%nat /\
             forall i m,
               nth_error (Chat.chatMessages s) i = Some m ->
               (S i < List.length (Chat.chatMessages s))%nat \/ Chat.role m = Chat.user ->
               nth_error
                 (Chat.update_last (fun last => if Chat.is_model last then g last else last)
                    (Chat.chatMessages s)) i = Some m).
  { intros g. split; [now rewrite update_last_length|].
    intros i m Hn Hc. apply update_last_nth; [exact Hn|].
    destruct Hc as [Hc | Hc]; [now left | right].
    unfold Chat.is_model. now rewrite Hc. }
  assert (Hsame : (List.length (Chat.chatMessages s) <= List.length (Chat.chatMessages s))%nat /\
                  forall i m,
                    nth_error (Chat.chatMessages s) i = Some m ->
                    (S i < List.length (Chat.chatMessages s))%nat \/ Chat.role m = Chat.user ->
                    nth_error (Chat.chatMessages s) i = Some m)
    by (split; [lia | now intros]).
  destruct e as [input|now| |now|c| |now];
    [ | assert (Chat.step s (Chat.Send now) = Chat.sendMessage_begin now s) as ->
          by (simpl; destruct (Chat.frame s); reflexivity)
      | | | | | ];
    unfold Chat.step.
  - destruct (Chat.frame s); exact Hsame.
  - unfold Chat.sendMessage_begin.
    destruct (negb (JS.truthy (JS.trim (Chat.chatInput s))) || Chat.isAiTyping s)%bool;
      [exact Hsame|].
    simpl. destruct (Happ {| Chat.role := Chat.user; Chat.text := Chat.chatInput s;
                             Chat.timestamp := now; Chat.isStreaming := None |}) as [H1 H2].
    split; [exact H1 | intros i m Hn _; now apply H2].
  - destruct (Chat.frame s); exact Hsame.
  - destruct (Chat.frame s); try exact Hsame.
    simpl. destruct (Happ {| Chat.role := Chat.model; Chat.text := EmptyString;
                             Chat.timestamp := now; Chat.isStreaming := Some true |}) as [H1 H2].
    split; [exact H1 | intros i m Hn _; now apply H2].
  - destruct (Chat.frame s) as [| |ft]; try exact Hsame.
    simpl. apply Hupd.
  - destruct (Chat.frame s) as [| |ft]; try exact Hsame.
    simpl. apply Hupd.
  - destruct (Chat.frame s) as [| |ft]; try exact Hsame; simpl;
      destruct (Happ {| Chat.role := Chat.model; Chat.text := Chat.fallbackText;
                        Chat.timestamp := now; Chat.isStreaming := None |}) as [H1 H2];
      (split; [exact H1 | intros i m Hn _; now apply H2]).
Qed.

(** X18: the log only grows at its end.  Whatever happens, a message
    that is not the last one, and any message of the user, stays at its
    position with its text, time and flag; only the last assistant
    message can still change. *)
Theorem X18_history_is_never_rewritten :
  forall (es : list Chat.event) (s : Chat.State) (i : nat) (m : Chat.ChatMessage),
    nth_error (Chat.chatMessages s) i = Some m ->
    (S i < List.length (Chat.chatMessages s))%nat \/ Chat.role m = Chat.user ->
    nth_error (Chat.chatMessages (Chat.run s es)) i = Some m /\
    (List.length (Chat.chatMessages s) <= List.length (Chat.chatMessages (Chat.run s es)))%nat.
Proof.
  induction es as [|e es IH]; intros s i m Hn Hc;
    [split; [exact Hn | apply Nat.le_refl]|].
  change (Chat.run s (e :: es)) with (Chat.run (Chat.step s e) es).
  destruct (chat_step_keeps s e) as [Hlen Hkeep].
  destruct (IH (Chat.step s e) i m) as [H1 H2].
  - now apply Hkeep.
  - destruct Hc as [Hc | Hc]; [left; lia | now right].
  - split; [exact H1 | lia].
Qed.

Lemma X18_history_is_never_rewritten_witness :
  let s := Chat.run greeting [Chat.Send 1; Chat.Opened 2] in
  nth_error (Chat.chatMessages s) 0 = Some (userMsg greeting 1) /\
  nth_error
    (Chat.chatMessages (Chat.run s [Chat.Chunk (Some "Hel"); Chat.Failed 3; Chat.Send 4]))
    0 = Some (userMsg greeting 1).
Proof.
  cbv zeta. split; [reflexivity|].
  exact (proj1 (X18_history_is_never_rewritten
                  [Chat.Chunk (Some "Hel"); Chat.Failed 3; Chat.Send 4]
                  (Chat.run greeting [Chat.Send 1; Chat.Opened 2]) 0
                  (userMsg greeting 1) eq_refl (or_intror eq_refl))).
Defined.

Lemma streaming_only_last_count (l : list Chat.ChatMessage) :
  Chat.streaming_only_last l = true ->
  (List.length (filter Chat.streaming l) <= 1)%nat.
Proof.
  induction l as [|m l IH]; intros H; [simpl; lia|].
  destruct l as [|m' l].
  - simpl. destruct (Chat.streaming m); simpl; lia.
  - change (Chat.streaming_only_last (m :: m' :: l))
      with (negb (Chat.streaming m) && Chat.streaming_only_last (m' :: l))%bool in H.
    apply andb_true_iff in H. destruct H as [Hm Hl].
    apply negb_true_iff in Hm.
    change (filter Chat.streaming (m :: m' :: l))
      with (if Chat.streaming m then m :: filter Chat.streaming (m' :: l)
            else filter Chat.streaming (m' :: l)).
    rewrite Hm. now apply IH.
Qed.

(** X19: as long as no exchange fails, the log keeps the invariant of
    the conversation: in every state reached from the start at most one
    message is marked as streaming and no message but the last is, and
    when no call is under way none is. *)
Theorem X19_invariant_holds_without_failures :
  forall (es : list Chat.event),
    forallb (fun e => negb (is_failure e)) es = true ->
    let s := Chat.run Chat.initial es in
    Chat.streaming_only_last (Chat.chatMessages s) = true /\
    (List.length (filter Chat.streaming (Chat.chatMessages s)) <= 1)%nat /\
    (Chat.isAiTyping s = false -> Chat.last_streaming (Chat.chatMessages s) = false).
Proof.
  intros es Hes s.
  assert (Hs : Chat.streaming_only_last (Chat.chatMessages s) = true).
  { apply streaming_only_last_without_failure;
      [apply chat_inv_initial | reflexivity |].
    rewrite forallb_forall in Hes. apply Forall_forall. intros e He now ->.
    specialize (Hes _ He). discriminate. }
  split; [exact Hs | split; [now apply streaming_only_last_count|]].
  intros Ht.
  assert (Hinv : chat_inv s) by (apply chat_inv_run, chat_inv_initial).
  unfold chat_inv in Hinv. destruct (Chat.frame s); destruct Hinv; congruence.
Qed.

Lemma X19_invariant_holds_without_failures_witness :
  forallb (fun e => negb (is_failure e))
    [Chat.Type_ "hi"; Chat.Send 1; Chat.Opened 2; Chat.Chunk (Some "Hel"); Chat.Done] = true /\
  Chat.streaming_only_last
    (Chat.chatMessages
       (Chat.run Chat.initial
          [Chat.Type_ "hi"; Chat.Send 1; Chat.Opened 2; Chat.Chunk (Some "Hel"); Chat.Done]))
  = true.
Proof.
  split; [reflexivity|].
  exact (proj1 (X19_invariant_holds_without_failures
                  [Chat.Type_ "hi"; Chat.Send 1; Chat.Opened 2; Chat.Chunk (Some "Hel");
                   Chat.Done] eq_refl)).
Defined.

(** ** Shape of the exported text *)

Lemma count_char_app (c : ascii) (a b : string) :
  count_char c (a ++ b) = (count_char c a + count_char c b)%nat.
Proof. induction a as [|x a IH]; simpl; [reflexivity | rewrite IH; lia]. Qed.

Lemma count_char_join (c : ascii) (sep : string) (l : list string) :
  (forall x, In x l -> count_char c x = 0%nat) ->
  count_char c (JS.join sep l) = (pred (List.length l) * count_char c sep)%nat.
Proof.
  induction l as [|x rest IH]; intros H; [reflexivity|].
  destruct rest as [|y rest].
  - simpl. rewrite (H x (or_introl eq_refl)). reflexivity.
  - change (JS.join sep (x :: y :: rest)) with (x ++ sep ++ JS.join sep (y :: rest)).
    rewrite !count_char_app, IH, (H x (or_introl eq_refl)).
    + simpl. lia.
    + intros z Hz. apply H. now right.
Qed.

(** X20: for plain data the exported text is a table: when no value
    holds a comma a row has one comma less than the record has fields,
    and when no field name of the first record and no value holds a
    newline the text has as many newlines as there are records, that is
    one line for the header and one per record. *)
Theorem X20_plain_data_gives_a_rectangular_text :
  (forall obj : Exporter.JsObj,
      (forall v, In v (map snd obj) ->
                 count_char "," (Exporter.join_item v) = 0%nat) ->
      count_char "," (Exporter.row obj) = pred (List.length obj)) /\
  (forall (first : Exporter.JsObj) (rest : list Exporter.JsObj),
      (forall key, In key (map fst first) -> count_char JS.LF key = 0%nat) ->
      (forall obj v, In obj (first :: rest) -> In v (map snd obj) ->
                     count_char JS.LF (Exporter.join_item v) = 0%nat) ->
      count_char JS.LF (Exporter.csvContent (first :: rest))
      = S (List.length rest)).
Proof.
  split.
  - intros obj H. unfold Exporter.row, Exporter.Object_values.
    rewrite count_char_join.
    + rewrite !length_map. change (count_char "," ",") with 1%nat.
      apply Nat.mul_1_r.
    + intros x Hx. apply in_map_iff in Hx. destruct Hx as (v & <- & Hv). now apply H.
  - intros first rest Hkeys Hvals.
    unfold Exporter.csvContent, Exporter.headers, Exporter.rows, Exporter.Object_keys.
    rewrite !count_char_app.
    rewrite (count_char_join JS.LF "," (map fst first)) by exact Hkeys.
    rewrite (count_char_join JS.LF JS.newline (map Exporter.row (first :: rest))).
    + rewrite !length_map.
      change (count_char JS.LF Exporter.csvPrefix) with 0%nat.
      change (count_char JS.LF ",") with 0%nat.
      change (count_char JS.LF JS.newline) with 1%nat.
      cbn [List.length pred]. rewrite Nat.mul_0_r, Nat.mul_1_r. reflexivity.
    + intros x Hx. apply in_map_iff in Hx. destruct Hx as (obj & <- & Hobj).
      unfold Exporter.row, Exporter.Object_values. rewrite count_char_join.
      * change (count_char JS.LF ",") with 0%nat. apply Nat.mul_0_r.
      * intros y Hy. apply in_map_iff in Hy. destruct Hy as (v & <- & Hv).
        now apply (Hvals obj).
Qed.

Lemma X20_plain_data_gives_a_rectangular_text_witness :
  (forall v, In v (map snd [("b", Exporter.JsString "x"); ("n", Exporter.JsNumber 42)]) ->
             count_char "," (Exporter.join_item v) = 0%nat) /\
  count_char "," (Exporter.row [("b", Exporter.JsString "x"); ("n", Exporter.JsNumber 42)])
  = pred (List.length [("b", Exporter.JsString "x"); ("n", Exporter.JsNumber 42)]).
Proof.
  assert (H : forall v,
             In v (map snd [("b", Exporter.JsString "x"); ("n", Exporter.JsNumber 42)]) ->
             count_char "," (Exporter.join_item v) = 0%nat).
  { intros v [<- | [<- | []]]; reflexivity. }
  split; [exact H|].
  exact (proj1 X20_plain_data_gives_a_rectangular_text
           [("b", Exporter.JsString "x"); ("n", Exporter.JsNumber 42)] H).
Defined.

Lemma encodeURI_app (a b : string) :
  JS.encodeURI (a ++ b) = JS.encodeURI a ++ JS.encodeURI b.
Proof.
  induction a as [|c a IH]; [reflexivity|].
  simpl. destruct (JS.uri_unescaped c); simpl; now rewrite IH.
Qed.

Lemma unescape_hex (c : ascii) :
  unescape (JS.hex_digit (nat_of_ascii c / 16)) (JS.hex_digit (nat_of_ascii c mod 16)) = c.
Proof.
  destruct c as [[] [] [] [] [] [] [] []]; vm_compute; reflexivity.
Qed.

Lemma encodeURI_cons (c : ascii) (s : string) :
  JS.encodeURI (String c s)
  = if JS.uri_unescaped c then String c (JS.encodeURI s)
    else String "%" (String (JS.hex_digit (nat_of_ascii c / 16))
                       (String (JS.hex_digit (nat_of_ascii c mod 16)) (JS.encodeURI s))).
Proof. reflexivity. Qed.

Lemma encodeURI_injective (s1 : string) :
  forall s2, JS.encodeURI s1 = JS.encodeURI s2 -> s1 = s2.
Proof.
  induction s1 as [|c1 s1 IH]; intros [|c2 s2] H.
  - reflexivity.
  - rewrite encodeURI_cons in H. destruct (JS.uri_unescaped c2); discriminate.
  - rewrite encodeURI_cons in H. destruct (JS.uri_unescaped c1); discriminate.
  - rewrite !encodeURI_cons in H.
    destruct (JS.uri_unescaped c1) eqn:E1, (JS.uri_unescaped c2) eqn:E2.
    + injection H as -> H. f_equal. now apply IH.
    + injection H as -> H. vm_compute in E1. discriminate.
    + injection H as <- H. vm_compute in E2. discriminate.
    + injection H as H1 H2 H. f_equal; [|now apply IH].
      change (JS.hex_digit (nat_of_ascii c1 / 16) = JS.hex_digit (nat_of_ascii c2 / 16))
        in H1.
      change (JS.hex_digit (nat_of_ascii c1 mod 16) = JS.hex_digit (nat_of_ascii c2 mod 16))
        in H2.
      pose proof (unescape_hex c1) as U1. pose proof (unescape_hex c2) as U2.
      rewrite H1, H2 in U1. congruence.
Qed.

(** X21: the link that is clicked is a CSV data URI that carries the
    whole text: it starts with the fixed scheme and media type, what
    follows is the encoding of the header and the rows with the
    newlines written [%0A], and two exports with the same link have the
    same text. *)
Theorem X21_link_carries_the_text :
  forall (data : list Exporter.JsObj) (filename : string) (link : Exporter.Link),
    Exporter.exportToCSV data filename = Some link ->
    Exporter.href link
    = Exporter.csvPrefix ++ JS.encodeURI (Exporter.headers data) ++ "%0A"
      ++ JS.encodeURI (Exporter.rows data) /\
    Exporter.download link = filename ++ ".csv" /\
    forall data' filename' link',
      Exporter.exportToCSV data' filename' = Some link' ->
      Exporter.href link' = Exporter.href link ->
      Exporter.csvContent data' = Exporter.csvContent data.
Proof.
  intros data filename link H.
  destruct data as [|first rest]; [discriminate|].
  injection H as <-. cbn [Exporter.href Exporter.download].
  split; [|split; [reflexivity|]].
  - unfold Exporter.csvContent. rewrite !encodeURI_app. reflexivity.
  - intros data' filename' link' H' Heq.
    destruct data' as [|first' rest']; [discriminate|].
    injection H' as <-. cbn [Exporter.href] in Heq.
    now apply encodeURI_injective.
Qed.

Lemma X21_link_carries_the_text_witness :
  Exporter.exportToCSV [example_record] "nexus_full_registry"
  = Some {| Exporter.href := JS.encodeURI (Exporter.csvContent [example_record]);
            Exporter.download := "nexus_full_registry" ++ ".csv" |} /\
  Exporter.download
    {| Exporter.href := JS.encodeURI (Exporter.csvContent [example_record]);
       Exporter.download := "nexus_full_registry" ++ ".csv" |}
  = "nexus_full_registry" ++ ".csv".
Proof.
  split; [reflexivity|].
  exact (proj1 (proj2 (X21_link_carries_the_text [example_record] "nexus_full_registry"
                         _ eq_refl))).
Defined.

(** ** Chart rows *)

Lemma get_own (o : list (string * Z)) :
  NoDup (map fst o) ->
  forall k v, In (k, v) o -> Charts.get o k = Some v.
Proof.
  induction o as [|[k0 v0] o IH]; intros Hnd k v Hin; [contradiction|].
  inversion Hnd as [|? ? Hk0 Hnd']; subst.
  unfold Charts.get. simpl. destruct (String.eqb k0 k) eqn:E.
  - apply String.eqb_eq in E. subst k0. destruct Hin as [H | H].
    + now injection H as ->.
    + exfalso. apply Hk0. change k with (fst (k, v)). now apply in_map.
  - destruct Hin as [H | H].
    + injection H as -> ->. now rewrite String.eqb_refl in E.
    + apply (IH Hnd' k v H).
Qed.

Lemma get_missing (o : list (string * Z)) (k : string) :
  ~ In k (map fst o) -> Charts.get o k = None.
Proof.
  induction o as [|[k0 v0] o IH]; intros H; [reflexivity|].
  unfold Charts.get. simpl. destruct (String.eqb k0 k) eqn:E.
  - apply String.eqb_eq in E. subst. exfalso. apply H. now left.
  - apply IH. intros Hin. apply H. now right.
Qed.

Lemma get_along (o : list (string * Z)) :
  NoDup (map fst o) ->
  map (Charts.get o) (map fst o) = map (fun p => Some (snd p)) o.
Proof.
  intros Hnd. rewrite map_map. apply map_ext_in. intros [k v] Hin.
  simpl. now apply get_own.
Qed.

(** X22: the chart has one row per date of the case series, in the order
    of that series, and none when there is no historical data.  When the
    dates of a series are the dates of the case series, the rows carry
    that series' values position by position; a date that a series does
    not have still gets its row, with that value missing. *)
Theorem X22_chart_rows_follow_the_case_dates :
  forall (formatDate : string -> string) (h : HistoricalData.t),
    let rows := Charts.chartData formatDate (Some h) in
    Charts.chartData formatDate None = [] /\
    map Charts.date rows = map formatDate (map fst (HistoricalData.cases h)) /\
    (NoDup (map fst (HistoricalData.cases h)) ->
     map Charts.cases rows = map (fun p => Some (snd p)) (HistoricalData.cases h) /\
     (map fst (HistoricalData.deaths h) = map fst (HistoricalData.cases h) ->
      map Charts.deaths rows = map (fun p => Some (snd p)) (HistoricalData.deaths h)) /\
     (map fst (HistoricalData.recovered h) = map fst (HistoricalData.cases h) ->
      map Charts.recovered rows
      = map (fun p => Some (snd p)) (HistoricalData.recovered h))) /\
    (forall d, In d (map fst (HistoricalData.cases h)) ->
               ~ In d (map fst (HistoricalData.deaths h)) ->
               exists row, In row rows /\ Charts.date row = formatDate d /\
                           Charts.deaths row = None).
Proof.
  intros formatDate h rows. subst rows. unfold Charts.chartData.
  split; [reflexivity | split; [|split]].
  - rewrite !map_map. reflexivity.
  - intros Hnd. split; [|split].
    + rewrite map_map. cbn [Charts.cases]. rewrite <- (get_along _ Hnd).
      reflexivity.
    + intros Hk. rewrite map_map. cbn [Charts.deaths].
      rewrite <- Hk in Hnd. rewrite <- (get_along _ Hnd), <- Hk. reflexivity.
    + intros Hk. rewrite map_map. cbn [Charts.recovered].
      rewrite <- Hk in Hnd. rewrite <- (get_along _ Hnd), <- Hk. reflexivity.
  - intros d Hd Hmiss. eexists. split.
    + apply in_map_iff. exists d. split; [reflexivity | exact Hd].
    + split; [reflexivity|]. cbn [Charts.deaths]. now apply get_missing.
Qed.

Lemma X22_chart_rows_follow_the_case_dates_witness :
  NoDup (map fst (HistoricalData.cases sample_history)) /\
  map Charts.cases (Charts.chartData (fun d => d) (Some sample_history))
  = map (fun p => Some (snd p)) (HistoricalData.cases sample_history).
Proof.
  assert (H : NoDup (map fst (HistoricalData.cases sample_history)))
    by (repeat constructor; intros []).
  split; [exact H|].
  exact (proj1 (proj1 (proj2 (proj2
           (X22_chart_rows_follow_the_case_dates (fun d => d) sample_history))) H)).
Defined.

(** ** Identity *)

Lemma split_first_decompose (sep : ascii) (s : string) :
  count_char sep (Text.split_first sep s) = 0%nat /\
  exists rest,
    s = Text.split_first sep s ++ rest /\
    (rest = EmptyString \/ exists r, rest = String sep r).
Proof.
  induction s as [|c s [IH1 (rest & IH2 & IH3)]].
  - split; [reflexivity|]. exists EmptyString. split; [reflexivity | now left].
  - simpl. destruct (Ascii.eqb c sep) eqn:E.
    + split; [reflexivity|]. apply Ascii.eqb_eq in E. subst c.
      exists (String sep s). split; [reflexivity | right; now exists s].
    + split; [simpl; now rewrite E|].
      exists rest. split; [simpl; now rewrite <- IH2 | exact IH3].
Qed.

Lemma split_first_none (sep : ascii) (s : string) :
  count_char sep s = 0%nat -> Text.split_first sep s = s.
Proof.
  induction s as [|c s IH]; [reflexivity|].
  simpl. destruct (Ascii.eqb c sep); [discriminate|].
  intros H. simpl in H. now rewrite IH.
Qed.

Lemma upper_ascii_at (c : ascii) :
  Ascii.eqb (Text.upper_ascii c) "@" = Ascii.eqb c "@".
Proof. destruct c as [[] [] [] [] [] [] [] []]; vm_compute; reflexivity. Qed.

Lemma upper_upper_ascii (c : ascii) :
  Text.upper_ascii (Text.upper_ascii c) = Text.upper_ascii c.
Proof. destruct c as [[] [] [] [] [] [] [] []]; vm_compute; reflexivity. Qed.

Lemma count_at_toUpperCase (s : string) :
  count_char "@" (Text.toUpperCase s) = count_char "@" s.
Proof.
  induction s as [|c s IH]; [reflexivity|].
  simpl. now rewrite upper_ascii_at, IH.
Qed.

Lemma toUpperCase_idempotent (s : string) :
  Text.toUpperCase (Text.toUpperCase s) = Text.toUpperCase s.
Proof.
  induction s as [|c s IH]; [reflexivity|].
  simpl. now rewrite upper_upper_ascii, IH.
Qed.

(** X23: the display name is what stands before the first [@] of the
    e-mail address: the address is the name followed by nothing or by a
    rest that starts with [@], the name holds no [@], and an address
    without [@] is taken whole.  The first variant shows that name in
    capitals, which leaves it without [@] and unchanged by a further
    upper-casing. *)
Theorem X23_name_is_the_part_before_at :
  forall (email : string),
    let n := Auth.user_name (Auth.newUser email) in
    count_char "@" n = 0%nat /\
    (exists rest, email = n ++ rest /\
                  (rest = EmptyString \/ exists r, rest = String "@" r)) /\
    (count_char "@" email = 0%nat -> n = email) /\
    Auth.name (Auth.userData_of email) = Text.toUpperCase n /\
    count_char "@" (Auth.name (Auth.userData_of email)) = 0%nat /\
    Text.toUpperCase (Auth.name (Auth.userData_of email))
    = Auth.name (Auth.userData_of email) /\
    Auth.email (Auth.userData_of email) = email /\
    Auth.user_email (Auth.newUser email) = email.
Proof.
  intros email n. subst n. cbn [Auth.user_name Auth.newUser Auth.name Auth.userData_of
                                 Auth.email Auth.user_email].
  destruct (split_first_decompose "@" email) as [H1 H2].
  repeat split.
  - exact H1.
  - exact H2.
  - apply split_first_none.
  - now rewrite count_at_toUpperCase.
  - apply toUpperCase_idempotent.
Qed.

Lemma X23_name_is_the_part_before_at_witness :
  count_char "@" "commander" = 0%nat /\
  Auth.user_name (Auth.newUser "commander") = "commander".
Proof.
  split; [reflexivity|].
  exact (proj1 (proj2 (proj2 (X23_name_is_the_part_before_at "commander"))) eq_refl).
Defined.

Lemma getItem_setItem (k v : string) (st : Auth.Storage) :
  Auth.getItem k (Auth.setItem k v st) = Some v.
Proof.
  unfold Auth.getItem, Auth.setItem, Auth.removeItem.
  induction st as [|[k0 v0] st IH]; simpl.
  - now rewrite String.eqb_refl.
  - destruct (String.eqb k0 k) eqn:E; simpl; [exact IH | now rewrite E].
Qed.

Lemma getItem_removeItem (k : string) (st : Auth.Storage) :
  Auth.getItem k (Auth.removeItem k st) = None.
Proof.
  unfold Auth.getItem, Auth.removeItem.
  induction st as [|[k0 v0] st IH]; simpl; [reflexivity|].
  destruct (String.eqb k0 k) eqn:E; simpl; [exact IH | now rewrite E].
Qed.

Lemma getItem_removeItem_other (k k' : string) (st : Auth.Storage) :
  k' <> k -> Auth.getItem k' (Auth.removeItem k st) = Auth.getItem k' st.
Proof.
  intros Hne. unfold Auth.getItem, Auth.removeItem.
  induction st as [|[k0 v0] st IH]; simpl; [reflexivity|].
  destruct (String.eqb k0 k) eqn:E; simpl.
  - apply String.eqb_eq in E. subst k0.
    assert (String.eqb k k' = false) as -> by (apply String.eqb_neq; congruence).
    exact IH.
  - destruct (String.eqb k0 k'); [reflexivity | exact IH].
Qed.

Lemma getItem_app_other (k' : string) (st : Auth.Storage) (k v : string) :
  k' <> k -> Auth.getItem k' (st ++ [(k, v)])%list = Auth.getItem k' st.
Proof.
  intros Hne. unfold Auth.getItem.
  induction st as [|[k0 v0] st IH]; simpl.
  - assert (String.eqb k k' = false) as -> by (apply String.eqb_neq; congruence).
    reflexivity.
  - destruct (String.eqb k0 k'); [reflexivity | exact IH].
Qed.

Lemma getItem_setItem_other (k k' v : string) (st : Auth.Storage) :
  k' <> k -> Auth.getItem k' (Auth.setItem k v st) = Auth.getItem k' st.
Proof.
  intros Hne. unfold Auth.setItem.
  rewrite getItem_app_other by exact Hne. now apply getItem_removeItem_other.
Qed.

(** X24: the identity is kept under one key per variant: what login
    stores is what the next start reads, so a start after login finds
    the user that logged in (as far as parsing gives back what was
    written), a start after logout finds none, and neither login nor
    logout touches another key of the storage. *)
Theorem X24_login_persists_logout_clears :
  (forall (stringify : Auth.UserData -> string) (parse : string -> option Auth.UserData)
          (cfg : Config.t) (now : Z) (email : string) (s : Auth.Session),
      let s1 := Auth.handleLogin stringify cfg now email s in
      let s2 := Auth.handleLogout cfg now s1 in
      Auth.user s1 = Some (Auth.userData_of email) /\
      (JS.truthy (stringify (Auth.userData_of email)) = true ->
       parse (stringify (Auth.userData_of email)) = Some (Auth.userData_of email) ->
       Auth.initialUser parse (Auth.localStorage s1) = Auth.user s1) /\
      Auth.user s2 = None /\
      Auth.initialUser parse (Auth.localStorage s2) = None /\
      (forall k, k <> Auth.KEY ->
                 Auth.getItem k (Auth.localStorage s1) = Auth.getItem k (Auth.localStorage s) /\
                 Auth.getItem k (Auth.localStorage s2) = Auth.getItem k (Auth.localStorage s))) /\
  (forall (stringify : Auth.User -> string) (parse : string -> option Auth.User)
          (email : string) (s : Auth.AuthState),
      let s1 := Auth.login stringify email s in
      let s2 := Auth.logout s1 in
      Auth.current s1 = Some (Auth.newUser email) /\
      (JS.truthy (stringify (Auth.newUser email)) = true ->
       parse (stringify (Auth.newUser email)) = Some (Auth.newUser email) ->
       Auth.savedUser parse (Auth.store s1) = Auth.current s1) /\
      Auth.current s2 = None /\
      Auth.savedUser parse (Auth.store s2) = None /\
      (forall k, k <> Auth.USER_KEY ->
                 Auth.getItem k (Auth.store s1) = Auth.getItem k (Auth.store s) /\
                 Auth.getItem k (Auth.store s2) = Auth.getItem k (Auth.store s))).
Proof.
  split.
  - intros stringify parse cfg now email s. cbv zeta.
    cbn [Auth.user Auth.localStorage Auth.handleLogin Auth.handleLogout].
    split; [reflexivity | split; [|split; [reflexivity | split]]].
    + intros Ht Hp. unfold Auth.initialUser. now rewrite getItem_setItem, Ht.
    + unfold Auth.initialUser. now rewrite getItem_removeItem.
    + intros k Hk. rewrite getItem_removeItem_other, getItem_setItem_other by exact Hk.
      now split.
  - intros stringify parse email s. cbv zeta.
    cbn [Auth.current Auth.store Auth.login Auth.logout].
    split; [reflexivity | split; [|split; [reflexivity | split]]].
    + intros Ht Hp. unfold Auth.savedUser. now rewrite getItem_setItem, Ht.
    + unfold Auth.savedUser. now rewrite getItem_removeItem.
    + intros k Hk. rewrite getItem_removeItem_other, getItem_setItem_other by exact Hk.
      now split.
Qed.

Lemma X24_login_persists_logout_clears_witness :
  let stringify := fun u : Auth.User => Auth.user_email u in
  let parse := fun saved : string => Some (Auth.newUser saved) in
  let s := {| Auth.current := None; Auth.store := [("theme", "dark")] |} in
  JS.truthy (stringify (Auth.newUser "ada@nexus.ai")) = true /\
  parse (stringify (Auth.newUser "ada@nexus.ai")) = Some (Auth.newUser "ada@nexus.ai") /\
  Auth.savedUser parse (Auth.store (Auth.login stringify "ada@nexus.ai" s))
  = Auth.current (Auth.login stringify "ada@nexus.ai" s).
Proof.
  cbv zeta. split; [reflexivity | split; [reflexivity|]].
  exact (proj1 (proj2 (proj2 X24_login_persists_logout_clears
                         (fun u : Auth.User => Auth.user_email u)
                         (fun saved : string => Some (Auth.newUser saved))
                         "ada@nexus.ai"
                         {| Auth.current := None; Auth.store := [("theme", "dark")] |}))
           eq_refl eq_refl).
Defined.

(** ** AI summary *)

(** X25: [generateAIInsights] without statistics does nothing and sends
    nothing.  With statistics the loading flag is down again whatever
    the answer, and the panel shows the text of the answer, or the fixed
    fallback text when the request failed. *)
Theorem X25_insights_never_stay_loading :
  forall (reply : Insights.Reply) (s : Insights.State),
    Insights.generateAIInsights None reply s = s /\
    fst (Insights.generateAIInsights_begin None s) = false /\
    forall g : GlobalStats.t,
      let s' := Insights.generateAIInsights (Some g) reply s in
      Insights.isAiLoading s' = false /\
      Insights.aiInsight s'
      = match reply with
        | Insights.Answered text => text
        | Insights.Refused _ => Some Insights.fallbackText
        end.
Proof.
  intros reply s. split; [reflexivity | split; [reflexivity|]].
  intros g. destruct reply; now split.
Qed.

(** ** Further instances *)

Lemma X1_search_matches_occurrences_witness :
  In (country_named "France" 3) three_countries /\
  (exists a b,
      JS.toLowerCase (CountryData.country (country_named "France" 3))
      = a ++ JS.toLowerCase "RAN" ++ b) /\
  In (country_named "France" 3) (filter (Dashboard.matches "RAN") three_countries).
Proof.
  assert (H1 : In (country_named "France" 3) three_countries) by (left; reflexivity).
  assert (H2 : exists a b,
             JS.toLowerCase (CountryData.country (country_named "France" 3))
             = a ++ JS.toLowerCase "RAN" ++ b)
    by (exists "f", "ce"; reflexivity).
  split; [exact H1 | split; [exact H2|]].
  exact (proj2 (X1_search_matches_occurrences "RAN" three_countries
                  (country_named "France" 3)) (conj H1 H2)).
Defined.

Lemma X8_expiry_is_idempotent_and_commutes_witness :
  let s := App.run App.initial [App.Notify 5 "a"; App.Notify 5 "b"; App.Notify 6 "c"] in
  In {| App.id := 6; App.text := "c" |} (App.notifications s) /\
  6 <> 5 /\
  In {| App.id := 6; App.text := "c" |} (App.notifications (App.expire 5 s)).
Proof.
  cbv zeta.
  assert (H1 : In {| App.id := 6; App.text := "c" |}
                 (App.notifications
                    (App.run App.initial
                       [App.Notify 5 "a"; App.Notify 5 "b"; App.Notify 6 "c"])))
    by (right; right; left; reflexivity).
  assert (H2 : 6 <> 5) by lia.
  split; [exact H1 | split; [exact H2|]].
  exact (proj2 (proj1 (X8_expiry_is_idempotent_and_commutes
                         (App.run App.initial
                            [App.Notify 5 "a"; App.Notify 5 "b"; App.Notify 6 "c"]) 5 5)
                  {| App.id := 6; App.text := "c" |}) (conj H1 H2)).
Defined.

Lemma X11_error_banner_follows_the_refresh_witness :
  Dashboard.fetched sample_net <> None /\
  Dashboard.error (Dashboard.fetchData sample_net Dashboard.initial) = None.
Proof.
  assert (H : Dashboard.fetched sample_net <> None) by (vm_compute; discriminate).
  split; [exact H|].
  exact (proj2 (proj1 (X11_error_banner_follows_the_refresh sample_net Dashboard.initial)) H).
Defined.
